(** * fs.zipfs: the archive-backed filesystem of pyfilesystem2

    A shallow embedding of [fs/zipfs.py] ([ReadZipFS], [WriteZipFS]) and of
    the part of [fs/time.py] it calls.  Python objects become records,
    methods become functions in a state-and-exception monad over the
    object they mutate, and exceptions are values of [Error]. *)

From Stdlib Require Import List String Ascii ZArith Bool Lia Permutation.
Import ListNotations.
Open Scope string_scope.

(** ** Exceptions and the state-and-exception monad *)

(** The exception classes that the modelled code raises or lets through. *)
Inductive Error : Type :=
| FilesystemClosed
| ResourceReadOnly (path : string)
| ResourceNotFound (path : string)
| FileExpected (path : string)
| DirectoryExpected (path : string)
| IllegalBackReference (path : string)
| KeyError (name : string)
| ValueError (msg : string)
| OSError (msg : string).

Inductive result (A : Type) : Type :=
| Ok (a : A)
| Raise (e : Error).
Arguments Ok {A} a.
Arguments Raise {A} e.

(** A method of an object of type [S]: it returns or raises, and leaves
    the object in a new state either way. *)
Definition M (S A : Type) : Type := S -> result A * S.

Definition ret {S A} (a : A) : M S A := fun s => (Ok a, s).
Definition raise {S A} (e : Error) : M S A := fun s => (Raise e, s).
Definition bind {S A B} (m : M S A) (k : A -> M S B) : M S B :=
  fun s => match m s with
           | (Ok a, s') => k a s'
           | (Raise e, s') => (Raise e, s')
           end.
Definition lift {S A} (r : result A) : M S A := fun s => (r, s).

Declare Scope monad_scope.
Delimit Scope monad_scope with monad.
Notation "x <- m ;; k" := (bind m (fun x => k))
  (at level 61, m at next level, right associativity) : monad_scope.
Notation "m ;;; k" := (bind m (fun _ => k))
  (at level 61, right associativity) : monad_scope.
Open Scope monad_scope.

(** ** fs.path *)

Module Path.

(** Modelled from the spec: [fs/path.py] is not among the sources; the
    spec names it the "generic path-string canonicalization utility
    (normalize, join, relativize, dirname)".  The functions below are
    the ones [fs/zipfs.py] imports ([dirname], [forcedir], [normpath],
    [relpath]) and the ones the directory index needs to address its
    nodes. *)

Definition slash : ascii := "/"%char.

(** [s.split("/")]. *)
Fixpoint split (s : string) : list string :=
  match s with
  | EmptyString => [EmptyString]
  | String c s' =>
      if Ascii.eqb c slash then EmptyString :: split s'
      else match split s' with
           | [] => [String c EmptyString]
           | w :: ws => String c w :: ws
           end
  end.

(** ["/".join(components)]. *)
Definition join (components : list string) : string :=
  String.concat "/" components.

Fixpoint endswith_slash (s : string) : bool :=
  match s with
  | EmptyString => false
  | String c EmptyString => Ascii.eqb c slash
  | String _ s' => endswith_slash s'
  end.

Definition startswith_slash (s : string) : bool :=
  match s with
  | String c _ => Ascii.eqb c slash
  | EmptyString => false
  end.

(** The loop of [normpath]: empty and ["."] components are dropped, a
    [".."] pops the component before it, and popping from nothing is
    an illegal back reference.  [stack] holds the components kept so
    far, last one first. *)
Fixpoint resolve (components stack : list string) : option (list string) :=
  match components with
  | [] => Some (rev stack)
  | c :: cs =>
      if String.eqb c ".." then
        match stack with
        | [] => None
        | _ :: stack' => resolve cs stack'
        end
      else if String.eqb c "" || String.eqb c "." then resolve cs stack
      else resolve cs (c :: stack)
  end.

(** The components of the normalised path: what
    [iteratepath(normpath(path))] yields, the root being [[]]. *)
Definition parts (path : string) : result (list string) :=
  match resolve (split path) [] with
  | Some cs => Ok cs
  | None => Raise (IllegalBackReference path)
  end.

(** [normpath]: the canonical form keeps a leading separator and has
    no trailing one, except for the root. *)
Definition normpath (path : string) : result string :=
  match parts path with
  | Ok cs => Ok ((if startswith_slash path then "/" else "") ++ join cs)
  | Raise e => Raise e
  end.

(** [relpath]: [path.lstrip("/")]. *)
Fixpoint relpath (path : string) : string :=
  match path with
  | String c s' => if Ascii.eqb c slash then relpath s' else path
  | EmptyString => EmptyString
  end.

(** [abspath]. *)
Definition abspath (path : string) : string :=
  if startswith_slash path then path else "/" ++ path.

(** [forcedir]. *)
Definition forcedir (path : string) : string :=
  if endswith_slash path then path else path ++ "/".

(** [dirname]: everything before the last separator, ["/"] when that
    is empty and [""] when there is no separator. *)
Definition dirname (path : string) : string :=
  match split path with
  | [] | [_] => ""
  | cs => let head := join (removelast cs) in
          if String.eqb head "" then "/" else head
  end.

Definition path_eqb (p q : list string) : bool :=
  if list_eq_dec string_dec p q then true else false.

(** [basename] of a node addressed by its components. *)
Definition basename (p : list string) : string := last p "".

(** [p] is [q] or an ancestor of [q]. *)
Fixpoint is_prefix (p q : list string) : bool :=
  match p, q with
  | [], _ => true
  | c :: p', d :: q' => String.eqb c d && is_prefix p' q'
  | _ :: _, [] => false
  end.

End Path.

(** ** fs.memoryfs *)

Module MemoryFS.

(** Modelled from the spec: [fs/memoryfs.py] and the generic methods
    of [fs/base.py] it inherits are not among the sources.  The spec
    gives the directory index as "a tree where each node is
    [{is_directory: bool}]", filled by "creating every ancestor
    directory of every entry before recording the entry itself", with
    "idempotent node creation".  The tree is kept as the list of its
    nodes in creation order, each addressed by the components of its
    path; the root is always there and is a directory.  The spec does
not say what happens when a file stands where a directory is
wanted: as in the library, [makedirs] then raises
[DirectoryExpected], and [create] on a path that exists changes
nothing. *)
Definition t : Type := list (list string * bool).

Definition empty : t := [].

Fixpoint assoc (p : list string) (fs : t) : option bool :=
  match fs with
  | [] => None
  | (q, d) :: fs' => if Path.path_eqb q p then Some d else assoc p fs'
  end.

(** The node at [p]: [Some true] a directory, [Some false] a file. *)
Definition entry (fs : t) (p : list string) : option bool :=
  match p with
  | [] => Some true
  | _ => assoc p fs
  end.

(** [getinfo(path)]: the basic namespace, [(name, is_dir)]. *)
Definition getinfo (fs : t) (path : string) : result (string * bool) :=
  match Path.parts path with
  | Raise e => Raise e
  | Ok p => match entry fs p with
            | Some d => Ok (Path.basename p, d)
            | None => Raise (ResourceNotFound path)
            end
  end.

(** [exists], [isdir], [isfile]: [getinfo] with [ResourceNotFound]
    turned into [False]. *)
Definition exists_ (fs : t) (path : string) : result bool :=
  match Path.parts path with
  | Raise e => Raise e
  | Ok p => Ok (match entry fs p with Some _ => true | None => false end)
  end.

Definition isdir (fs : t) (path : string) : result bool :=
  match Path.parts path with
  | Raise e => Raise e
  | Ok p => Ok (match entry fs p with Some d => d | None => false end)
  end.

Definition isfile (fs : t) (path : string) : result bool :=
  match Path.parts path with
  | Raise e => Raise e
  | Ok p => Ok (match entry fs p with Some d => negb d | None => false end)
  end.

Definition is_child_of (p : list string) (node : list string * bool) : bool :=
  match fst node with
  | [] => false
  | q => Path.path_eqb (removelast q) p
  end.

(** The names directly under [p], in the order they were created. *)
Definition children (fs : t) (p : list string) : list string :=
  map (fun node => Path.basename (fst node)) (filter (is_child_of p) fs).

Definition listdir (fs : t) (path : string) : result (list string) :=
  match Path.parts path with
  | Raise e => Raise e
  | Ok p => match entry fs p with
            | None => Raise (ResourceNotFound path)
            | Some false => Raise (DirectoryExpected path)
            | Some true => Ok (children fs p)
            end
  end.

(** [makedirs(path, recreate=True)] below the directory [done]: each
    missing directory on the way is created, an existing one is kept,
    and a file on the way is an error. *)
Fixpoint makedirs_from (path : string) (done rest : list string) : M t unit :=
  match rest with
  | [] => ret tt
  | c :: rest' =>
      let q := (done ++ [c])%list in
      fun fs =>
        match entry fs q with
        | Some true => makedirs_from path q rest' fs
        | Some false => (Raise (DirectoryExpected path), fs)
        | None => makedirs_from path q rest' (fs ++ [(q, true)])%list
        end
  end.

Definition makedirs (path : string) : M t unit :=
  p <- lift (Path.parts path) ;; makedirs_from path [] p.

(** [create(path)]: [False] and no change when the path exists, else
    a new empty file in its parent directory. *)
Definition create (path : string) : M t bool :=
  p <- lift (Path.parts path) ;;
  fun fs =>
    match entry fs p with
    | Some _ => (Ok false, fs)
    | None =>
        match entry fs (removelast p) with
        | Some true => (Ok true, (fs ++ [(p, false)])%list)
        | _ => (Raise (ResourceNotFound path), fs)
        end
    end.

End MemoryFS.

(** ** zipfile (Python standard library) *)

Module ZipFile.

(** A record of the archive's table: the fields of [zipfile.ZipInfo]
    that [ReadZipFS] reads, and the bytes stored under the name. *)
Record ZipInfo : Type := {
  filename : string;
  file_size : Z;
  date_time : Z * Z * Z * Z * Z * Z;
  external_attr : Z;
  create_system : Z;
  contents : list Byte.byte
}.

(** An archive opened for reading: its table in stored order, and
    whether the file handle is still held. *)
Record t : Type := {
  filelist : list ZipInfo;
  fp : bool
}.

Definition namelist (z : t) : list string := map filename (filelist z).

(** [NameToInfo] is filled in table order, so a later record of the
    same name replaces an earlier one. *)
Fixpoint lookup (name : string) (l : list ZipInfo) : option ZipInfo :=
  match l with
  | [] => None
  | zi :: l' =>
      match lookup name l' with
      | Some zj => Some zj
      | None => if String.eqb (filename zi) name then Some zi else None
      end
  end.

Definition getinfo (z : t) (name : string) : result ZipInfo :=
  match lookup name (filelist z) with
  | Some zi => Ok zi
  | None => Raise (KeyError name)
  end.

(** The stream that [ZipFile.open] returns. *)
Record ZipExtFile : Type := {
  stream_data : list Byte.byte;
  stream_offset : Z
}.

Definition open (z : t) (name : string) : result ZipExtFile :=
  match getinfo z name with
  | Ok zi => Ok {| stream_data := contents zi; stream_offset := 0%Z |}
  | Raise e => Raise e
  end.

Definition read (z : t) (name : string) : result (list Byte.byte) :=
  match getinfo z name with
  | Ok zi => Ok (contents zi)
  | Raise e => Raise e
  end.

Definition close (z : t) : t := {| filelist := filelist z; fp := false |}.

End ZipFile.

(** ** fs.time *)

Module Time.

Local Open Scope Z_scope.

Record datetime : Type := {
  year : Z; month : Z; day : Z; hour : Z; minute : Z; second : Z
}.

Definition is_leap (y : Z) : bool :=
  ((y mod 4 =? 0) && negb (y mod 100 =? 0)) || (y mod 400 =? 0).

Definition days_in_month (y m : Z) : Z :=
  if m =? 2 then (if is_leap y then 29 else 28)
  else if (m =? 4) || (m =? 6) || (m =? 9) || (m =? 11) then 30
  else 31.

(** The constructor [datetime] on the six fields of [date_time]: it refuses fields out of
    range with [ValueError]. *)
Definition make_datetime (dt : Z * Z * Z * Z * Z * Z) : result datetime :=
  let '(y, mo, d, h, mi, s) := dt in
  if (1 <=? y) && (y <=? 9999) && (1 <=? mo) && (mo <=? 12)
     && (1 <=? d) && (d <=? days_in_month y mo)
     && (0 <=? h) && (h <=? 23) && (0 <=? mi) && (mi <=? 59)
     && (0 <=? s) && (s <=? 59)
  then Ok {| year := y; month := mo; day := d;
             hour := h; minute := mi; second := s |}
  else Raise (ValueError "datetime field out of range").

Definition days_before_year (y : Z) : Z :=
  let y' := y - 1 in y' * 365 + y' / 4 - y' / 100 + y' / 400.

Fixpoint days_before_month_from (y m : Z) (n : nat) : Z :=
  match n with
  | O => 0
  | S n' => days_before_month_from y m n'
            + (if Z.of_nat n <? m then days_in_month y (Z.of_nat n) else 0)
  end.

Definition toordinal (y m d : Z) : Z :=
  days_before_year y + days_before_month_from y m 12 + d.

(** [calendar.timegm] on the fields of a time tuple. *)
Definition timegm (d : datetime) : Z :=
  let days := toordinal (year d) (month d) 1 - 719163 + day d - 1 in
  ((days * 24 + hour d) * 60 + minute d) * 60 + second d.

(** [datetime_to_epoch]: [timegm(d.utctimetuple())]; the time tuple of
    a datetime without a time zone carries its fields unchanged. *)
Definition datetime_to_epoch (d : datetime) : Z := timegm d.

End Time.

(** ** fs.info, fs.enums, fs.permissions *)

Inductive ResourceType : Type := directory | file.

(** [Permissions(mode=m)]: the object built from the mode bits. *)
Inductive Permissions : Type := mkPermissions (mode : Z).

Record Details : Type := {
  size : option Z;
  type : ResourceType;
  modified : option Z
}.

(** The raw info handed to [Info]: [basic] is always there (name and
    [is_dir]), every other namespace only when it was filled. *)
Record Info : Type := {
  basic : string * bool;
  details : option Details;
  zip : option ZipFile.ZipInfo;
  access : option Permissions
}.

(** [x in namespaces]. *)
Definition mem (x : string) (l : list string) : bool := existsb (String.eqb x) l.

(** [c in mode] for a one-character [c]. *)
Fixpoint contains (c : ascii) (s : string) : bool :=
  match s with
  | EmptyString => false
  | String c' s' => Ascii.eqb c' c || contains c s'
  end.

(** A component has no separator in it. *)
Definition slash_free (c : string) : Prop := contains Path.slash c = false.

(** A component that normalisation keeps. *)
Definition kept (c : string) : Prop :=
  slash_free c /\ c <> "" /\ c <> "." /\ c <> "..".

(** ** ReadZipFS *)

Module ReadZipFS.

Record t : Type := {
  _file : string;
  encoding : string;
  _zip : ZipFile.t;
  _directory_fs : option MemoryFS.t;
  _closed : bool
}.

(** [ReadZipFS(file)]: the archive is opened, the index is not built. *)
Definition __init__ (file : string) (encoding : string) (table : list ZipFile.ZipInfo) : t :=
  {| _file := file; encoding := encoding;
     _zip := {| ZipFile.filelist := table; ZipFile.fp := true |};
     _directory_fs := None; _closed := false |}.

Definition isclosed (self : t) : bool := _closed self.

(** Modelled from the spec: [FS.check] of [fs/base.py] is not among the
    sources; "closed (handle released; all further calls fail)". *)
Definition check : M t unit :=
  fun self => if isclosed self then (Raise FilesystemClosed, self) else (Ok tt, self).

(** Modelled from the spec: [FS.validatepath] of [fs/base.py] is not
    among the sources; it checks that the filesystem is open and
    returns the path in canonical absolute form. *)
Definition validatepath (path : string) : M t string :=
  check ;;;
  p <- lift (Path.normpath path) ;;
  ret (Path.abspath p).

Definition set_directory_fs (fs : MemoryFS.t) (self : t) : t :=
  {| _file := _file self; encoding := encoding self; _zip := _zip self;
     _directory_fs := Some fs; _closed := _closed self |}.

(** One turn of the loop of [_directory]. *)
Definition add_name (zip_name : string) : M MemoryFS.t unit :=
  let resource_name := zip_name in
  if Path.endswith_slash resource_name then
    MemoryFS.makedirs resource_name
  else
    MemoryFS.makedirs (Path.dirname resource_name) ;;;
    _created <- MemoryFS.create resource_name ;;
    ret tt.

Fixpoint add_names (names : list string) : M MemoryFS.t unit :=
  match names with
  | [] => ret tt
  | zip_name :: names' => add_name zip_name ;;; add_names names'
  end.

(** The property [_directory].  [self._directory_fs] is assigned
    before the loop runs and the loop fills that same object, so when
    an entry makes the loop raise, the tree built so far stays cached
    and a later access returns it. *)
Definition _directory : M t MemoryFS.t :=
  check ;;;
  fun self =>
    match _directory_fs self with
    | Some _fs => (Ok _fs, self)
    | None =>
        match add_names (ZipFile.namelist (_zip self)) MemoryFS.empty with
        | (Ok _, _fs) => (Ok _fs, set_directory_fs _fs self)
        | (Raise e, _fs) => (Raise e, set_directory_fs _fs self)
        end
    end.

Definition _path_to_zip_name (path : string) : M t string :=
  p <- lift (Path.normpath path) ;;
  let path := Path.relpath p in
  d <- _directory ;;
  isdir <- lift (MemoryFS.isdir d path) ;;
  if isdir then ret (Path.forcedir path) else ret path.

Definition getinfo (path : string) (namespaces : list string) : M t Info :=
  _path <- validatepath path ;;
  if String.eqb _path "/" then
    ret {| basic := ("", true);
           details := if mem "details" namespaces
                      then Some {| size := None; type := directory; modified := None |}
                      else None;
           zip := None;
           access := None |}
  else
    d <- _directory ;;
    basic_info <- lift (MemoryFS.getinfo d _path) ;;
    if mem "details" namespaces || mem "access" namespaces || mem "zip" namespaces then
      zip_name <- _path_to_zip_name path ;;
      fun self =>
        match ZipFile.getinfo (_zip self) zip_name with
        | Raise _ =>
            (* Can occur if there is an implied directory in the zip *)
            (Ok {| basic := basic_info; details := None; zip := None; access := None |}, self)
        | Ok zip_info =>
            match (if mem "details" namespaces then
                     match Time.make_datetime (ZipFile.date_time zip_info) with
                     | Ok dt =>
                         Ok (Some {| size := Some (ZipFile.file_size zip_info);
                                     type := if snd basic_info then directory else file;
                                     modified := Some (Time.datetime_to_epoch dt) |})
                     | Raise e => Raise e
                     end
                   else Ok None) with
            | Raise e => (Raise e, self)
            | Ok details_ns =>
                (Ok {| basic := basic_info;
                       details := details_ns;
                       zip := if mem "zip" namespaces then Some zip_info else None;
                       access :=
                         if mem "access" namespaces then
                           (* check the zip was created on UNIX to get permissions *)
                           if negb (ZipFile.external_attr zip_info =? 0)%Z
                              && (ZipFile.create_system zip_info =? 3)%Z
                           then Some (mkPermissions
                                        (Z.land (Z.shiftr (ZipFile.external_attr zip_info) 16) 4095))
                           else None
                         else None |}, self)
            end
        end
    else
      ret {| basic := basic_info; details := None; zip := None; access := None |}.

Definition setinfo (path : string) (info : Info) : M t unit :=
  check ;;; raise (ResourceReadOnly path).

Definition listdir (path : string) : M t (list string) :=
  check ;;;
  d <- _directory ;;
  lift (MemoryFS.listdir d path).

Definition makedir (path : string) (permissions : option Permissions)
    (recreate : bool) : M t unit :=
  check ;;; raise (ResourceReadOnly path).

Definition openbin (path : string) (mode : string) : M t ZipFile.ZipExtFile :=
  check ;;;
  if contains "w" mode || contains "+" mode || contains "a" mode then
    raise (ResourceReadOnly path)
  else
    d <- _directory ;;
    found <- lift (MemoryFS.exists_ d path) ;;
    if negb found then raise (ResourceNotFound path)
    else
      d <- _directory ;;
      isdir <- lift (MemoryFS.isdir d path) ;;
      if isdir then raise (FileExpected path)
      else
        zip_name <- _path_to_zip_name path ;;
        fun self => (ZipFile.open (_zip self) zip_name, self).

Definition remove (path : string) : M t unit :=
  check ;;; raise (ResourceReadOnly path).

Definition removedir (path : string) : M t unit :=
  check ;;; raise (ResourceReadOnly path).

(** [FS.close] marks the filesystem closed; the archive handle is
    released after it. *)
Definition close : M t unit :=
  fun self =>
    (Ok tt,
     {| _file := _file self; encoding := encoding self;
        _zip := ZipFile.close (_zip self);
        _directory_fs := _directory_fs self; _closed := true |}).

Definition readbytes (path : string) : M t (list Byte.byte) :=
  check ;;;
  d <- _directory ;;
  isfile <- lift (MemoryFS.isfile d path) ;;
  if negb isfile then raise (ResourceNotFound path)
  else
    zip_name <- _path_to_zip_name path ;;
    fun self => (ZipFile.read (_zip self) zip_name, self).

End ReadZipFS.

(** ** WriteZipFS *)

Module WriteZipFS.

Section Backend.

(** The scratch backend and the archive serializer are outside
    [fs/zipfs.py].  [TempFS] is the state of the scratch backend
    ([open_fs(temp_fs)]) and [temp_close] its [close] method.
    [World] is whatever the serializer writes to, and
    [compress_write_zip] is [fs.compress.write_zip(src_fs, file,
    compression, encoding)]: it may raise, and changes the world
    either way. *)
Variable TempFS : Type.
Variable World : Type.
Variable temp_close : TempFS -> result unit * TempFS.
Variable compress_write_zip :
  TempFS -> string -> Z -> string -> World -> result unit * World.

Record t : Type := {
  _file : string;
  compression : Z;
  encoding : string;
  _temp_fs : TempFS;
  _closed : bool
}.

(** A method of [WriteZipFS] acts on the instance and on the world. *)
Definition state : Type := (t * World)%type.

Definition isclosed (self : t) : bool := _closed self.

(** [a or b] on an optional argument: [None] and the empty string
    are false. *)
Definition or_string (a : option string) (b : string) : string :=
  match a with
  | Some s => if String.eqb s "" then b else s
  | None => b
  end.

(** [a or b] on an optional integer: [None] and [0] are false. *)
Definition or_int (a : option Z) (b : Z) : Z :=
  match a with
  | Some n => if (n =? 0)%Z then b else n
  | None => b
  end.

Definition write_zip (file : option string) (compression_ : option Z)
    (encoding_ : option string) : M state unit :=
  fun '(self, w) =>
    if negb (isclosed self) then
      let '(r, w') :=
        compress_write_zip (_temp_fs self)
          (or_string file (_file self))
          (or_int compression_ (compression self))
          (or_string encoding_ (encoding self)) w in
      (r, (self, w'))
    else (Ok tt, (self, w)).

Definition set_temp_fs (fs : TempFS) (self : t) : t :=
  {| _file := _file self; compression := compression self;
     encoding := encoding self; _temp_fs := fs; _closed := _closed self |}.

(** [self._temp_fs.close()]. *)
Definition close_temp_fs : M state unit :=
  fun '(self, w) =>
    let '(r, fs') := temp_close (_temp_fs self) in
    (r, (set_temp_fs fs' self, w)).

(** [try: body finally: handler]: the handler runs whether the body
    returned or raised; what the body raised is raised again after
    it, unless the handler raises itself. *)
Definition try_finally {S A} (body : M S A) (handler : M S unit) : M S A :=
  fun s =>
    match body s with
    | (r, s') =>
        match handler s' with
        | (Ok _, s'') => (r, s'')
        | (Raise e, s'') => (Raise e, s'')
        end
    end.

(** [FS.close]: the instance is marked closed. *)
Definition super_close : M state unit :=
  fun '(self, w) =>
    (Ok tt,
     ({| _file := _file self; compression := compression self;
         encoding := encoding self; _temp_fs := _temp_fs self;
         _closed := true |}, w)).

Definition close : M state unit :=
  (fun s =>
     if negb (isclosed (fst s)) then
       try_finally (write_zip None None None) close_temp_fs s
     else (Ok tt, s)) ;;;
  super_close.

End Backend.

End WriteZipFS.

(** ** What the names of an archive ask of the index *)

Module Index.

(** The paths [done/c1], [done/c1/c2], ... down to [done/rest]. *)
Fixpoint prefixes_from (done rest : list string) : list (list string) :=
  match rest with
  | [] => []
  | c :: rest' => (done ++ [c])%list :: prefixes_from (done ++ [c])%list rest'
  end.

(** The directories that the loop of [ReadZipFS._directory] makes for
    one name: the directory itself and its ancestors for a name that
    ends with the separator, the ancestors for any other name. *)
Definition dirs_of (zip_name : string) : list (list string) :=
  match Path.resolve
          (Path.split (if Path.endswith_slash zip_name then zip_name
                       else Path.dirname zip_name)) [] with
  | Some p => prefixes_from [] p
  | None => []
  end.

(** The file that the loop creates for one name. *)
Definition files_of (zip_name : string) : list (list string) :=
  if Path.endswith_slash zip_name then []
  else match Path.resolve (Path.split zip_name) [] with
       | Some p => [p]
       | None => []
       end.

(** The node that a list of names asks for at [q]: a directory if some
    name needs [q] as a directory, else a file if some name is the
    file [q]. *)
Definition node (names : list string) (q : list string) : option bool :=
  if existsb (Path.path_eqb q) (flat_map dirs_of names) then Some true
  else if existsb (Path.path_eqb q) (flat_map files_of names) then Some false
  else None.

(** Two trees with the same nodes: every path is absent from both, a
    directory in both, or a file in both. *)
Definition same_nodes (fs fs' : MemoryFS.t) : Prop :=
  forall q, MemoryFS.entry fs q = MemoryFS.entry fs' q.

(** [fs'] is [fs] with the directory [dpath] and its ancestors added
    where they were missing, and [dpath] has the same children in the
    same order in both. *)
Definition with_directory (dpath : list string) (fs fs' : MemoryFS.t) : Prop :=
  (forall q,
     MemoryFS.entry fs' q
     = match MemoryFS.entry fs q with
       | Some b => Some b
       | None => if existsb (Path.path_eqb q) (prefixes_from [] dpath)
                 then Some true else None
       end)
  /\ filter (MemoryFS.is_child_of dpath) fs = filter (MemoryFS.is_child_of dpath) fs'.

End Index.

(** ** Sample archives and backends *)

Module Examples.

(** A file record written on a POSIX system with mode [0o644]. *)
Definition record (name : string) (data : list Byte.byte) : ZipFile.ZipInfo :=
  {| ZipFile.filename := name;
     ZipFile.file_size := Z.of_nat (List.length data);
     ZipFile.date_time := (2020, 1, 2, 3, 4, 5)%Z;
     ZipFile.external_attr := 2175008768;
     ZipFile.create_system := 3;
     ZipFile.contents := data |}.

Definition hi : list Byte.byte := [Byte.x68; Byte.x69].

(** The archive whose only entry is ["x/y.txt"]. *)
Definition implied : ReadZipFS.t :=
  ReadZipFS.__init__ "implied.zip" "utf-8" [record "x/y.txt" hi].

(** The same archive with the directory stored as well. *)
Definition explicit : ReadZipFS.t :=
  ReadZipFS.__init__ "explicit.zip" "utf-8" [record "x/" []; record "x/y.txt" hi].

(** An archive that stores a file under an absolute name. *)
Definition absolute : ReadZipFS.t :=
  ReadZipFS.__init__ "absolute.zip" "utf-8" [record "/a" hi].

(** A scratch backend that only knows whether it is closed, and a
    world that lists the targets written so far. *)
Definition temp_close (closed : bool) : result unit * bool := (Ok tt, true).

(** A serializer that cannot open a target in a directory that does
    not exist; every call is recorded. *)
Definition compress_write_zip (src_fs : bool) (file : string) (compression : Z)
    (encoding : string) (calls : list string) : result unit * list string :=
  if String.eqb file "missing/out.zip"
  then (Raise (OSError "No such file or directory"), (calls ++ [file])%list)
  else (Ok tt, (calls ++ [file])%list).

Definition writer (file : string) (closed : bool) : WriteZipFS.t bool :=
  {| WriteZipFS._file := file; WriteZipFS.compression := 8;
     WriteZipFS.encoding := "utf-8"; WriteZipFS._temp_fs := closed;
     WriteZipFS._closed := closed |}.

End Examples.

(** ** Order of the dates of archive records *)

Module DateOrder.

(** [a] is an earlier date and time than [b]: the six fields compared
    from the year down. *)
Definition earlier (a b : Z * Z * Z * Z * Z * Z) : Prop :=
  let '(y1, mo1, d1, h1, mi1, s1) := a in
  let '(y2, mo2, d2, h2, mi2, s2) := b in
  (y1 < y2
   \/ (y1 = y2
       /\ (mo1 < mo2
           \/ (mo1 = mo2
               /\ (d1 < d2
                   \/ (d1 = d2
                       /\ (h1 < h2
                           \/ (h1 = h2
                               /\ (mi1 < mi2
                                   \/ (mi1 = mi2 /\ s1 < s2))))))))))%Z.

End DateOrder.

(** ** The names of a well-formed archive *)

Module ArchiveFormat.

(** An entry name in the form the archive format gives it: the
    components of a canonical path joined by the separator, with no
    leading separator, and one trailing separator for a directory. *)
Definition archive_name (zip_name : string) : Prop :=
  exists p,
    p <> []
    /\ Forall kept p
    /\ (zip_name = Path.join p \/ zip_name = (Path.join p ++ "/")%string).

End ArchiveFormat.

(** ** fs.iotools *)

Module IOTools.

(** A readable binary file, as [line_iterator] uses it: the bytes not
    yet read.  [read(1)] takes the next byte, and gives the empty
    bytes object at the end of the file. *)
Definition read1 (f : list Byte.byte) : list Byte.byte * list Byte.byte :=
  match f with
  | [] => ([], [])
  | b :: f' => ([b], f')
  end.

Definition newline : Byte.byte := Byte.x0a.

(** [byte in b"\n"] for what [read(1)] returned: true for the newline
    and for the empty bytes object. *)
Definition in_newline (byte : list Byte.byte) : bool :=
  match byte with
  | [] => true
  | [b] => Byte.eqb b newline
  | _ => false
  end.

(** [b"".join(line)]. *)
Definition join (line : list (list Byte.byte)) : list Byte.byte := List.concat line.

(** The loop [while byte:] of [line_iterator], from the moment
    [read(1)] is called with [f] left to read and [line] collected: the
    chunks it yields from there on, and what is left of the file when
    it ends. *)
Fixpoint unsized_loop (f : list Byte.byte) (line : list (list Byte.byte))
  : list (list Byte.byte) * list Byte.byte :=
  match f with
  | [] =>
      let byte := @nil Byte.byte in
      let line := (line ++ [byte])%list in
      ([join line], [])
  | b :: f' =>
      let byte := [b] in
      let line := (line ++ [byte])%list in
      if in_newline byte then
        let '(chunks, rest) := unsized_loop f' [] in
        (join line :: chunks, rest)
      else unsized_loop f' line
  end.

(** The loop [while byte and size:] of [line_iterator]. *)
Fixpoint sized_loop (f : list Byte.byte) (size : Z) (line : list (list Byte.byte))
  : list (list Byte.byte) * list Byte.byte :=
  if (size =? 0)%Z then ([], f)
  else
    match f with
    | [] =>
        let byte := @nil Byte.byte in
        let line := (line ++ [byte])%list in
        ([join line], [])
    | b :: f' =>
        let byte := [b] in
        let size := (size - 1)%Z in
        let line := (line ++ [byte])%list in
        if in_newline byte || (size =? 0)%Z then
          let '(chunks, rest) := sized_loop f' size [] in
          (join line :: chunks, rest)
        else sized_loop f' size line
    end.

(** [list(line_iterator(readable_file, size))], with the file as the
    iteration leaves it. *)
Definition line_iterator (readable_file : list Byte.byte) (size : option Z)
  : list (list Byte.byte) * list Byte.byte :=
  match size with
  | None => unsized_loop readable_file []
  | Some n =>
      if (n <? 0)%Z then unsized_loop readable_file []
      else sized_loop readable_file n []
  end.

(** What [make_stream] returns: the binary file it was given, under the
    wrappers of the [io] module it put around it. *)
Inductive IOObject (RawIO : Type) : Type :=
| Raw (bin_file : RawIO)
| BufferedRandom (raw : IOObject RawIO) (buffer_size : Z)
| BufferedReader (raw : IOObject RawIO) (buffer_size : Z)
| BufferedWriter (raw : IOObject RawIO) (buffer_size : Z)
| TextIOWrapper (buffer : IOObject RawIO) (encoding : option string)
    (errors : option string) (newline : option string) (line_buffering : bool).
Arguments Raw {RawIO} bin_file.
Arguments BufferedRandom {RawIO} raw buffer_size.
Arguments BufferedReader {RawIO} raw buffer_size.
Arguments BufferedWriter {RawIO} raw buffer_size.
Arguments TextIOWrapper {RawIO} buffer encoding errors newline line_buffering.

(** [buffering or io.DEFAULT_BUFFER_SIZE]. *)
Definition or_default (buffering default_buffer_size : Z) : Z :=
  if (buffering =? 0)%Z then default_buffer_size else buffering.

(** [encoding or "utf-8"]. *)
Definition or_utf8 (encoding : option string) : string :=
  match encoding with
  | Some e => if String.eqb e "" then "utf-8" else e
  | None => "utf-8"
  end.

(** [make_stream]; [DEFAULT_BUFFER_SIZE] is [io.DEFAULT_BUFFER_SIZE]. *)
Definition make_stream {RawIO : Type} (DEFAULT_BUFFER_SIZE : Z)
    (name : string) (bin_file : RawIO) (mode : string) (buffering : Z)
    (encoding errors newline : option string) (line_buffering : bool)
  : IOObject RawIO :=
  let reading := contains "r" mode in
  let writing := contains "w" mode in
  let appending := contains "a" mode in
  let binary := contains "b" mode in
  let reading := if contains "+" mode then true else reading in
  let writing := if contains "+" mode then true else writing in
  let encoding := if binary then None else Some (or_utf8 encoding) in
  let io_object := Raw bin_file in
  let io_object :=
    if (buffering >=? 0)%Z then
      if reading && writing then
        BufferedRandom io_object (or_default buffering DEFAULT_BUFFER_SIZE)
      else if reading then
        BufferedReader io_object (or_default buffering DEFAULT_BUFFER_SIZE)
      else if writing || appending then
        BufferedWriter io_object (or_default buffering DEFAULT_BUFFER_SIZE)
      else io_object
    else io_object in
  if negb binary then
    TextIOWrapper io_object encoding errors newline line_buffering
  else io_object.

(** The size of the buffer that was put around the binary file, if one
    was. *)
Fixpoint buffer_size_of {RawIO : Type} (io : IOObject RawIO) : option Z :=
  match io with
  | Raw _ => None
  | BufferedRandom _ n | BufferedReader _ n | BufferedWriter _ n => Some n
  | TextIOWrapper b _ _ _ _ => buffer_size_of b
  end.

(** The number of newline bytes in a bytes object. *)
Definition count_newlines (data : list Byte.byte) : nat :=
  List.length (filter (fun b => Byte.eqb b newline) data).

(** A chunk that is a line with its end: no newline but the last byte. *)
Definition full_line (chunk : list Byte.byte) : Prop :=
  exists body, chunk = (body ++ [newline])%list /\ ~ In newline body.

(** The bytes of an ASCII text. *)
Definition bytes_of_string (s : string) : list Byte.byte := list_byte_of_string s.

End IOTools.

(** * Properties *)

Open Scope list_scope.

(** ** Paths *)

Lemma resolve_split_relpath (s : string) :
  Path.resolve (Path.split (Path.relpath s)) [] = Path.resolve (Path.split s) [].
Proof.
  induction s as [|c s IH]; [reflexivity|].
  simpl. destruct (Ascii.eqb c Path.slash) eqn:Hc.
  - rewrite IH. reflexivity.
  - simpl. rewrite Hc. reflexivity.
Qed.

Lemma resolve_split_abspath (s : string) :
  Path.resolve (Path.split (Path.abspath s)) [] = Path.resolve (Path.split s) [].
Proof.
  unfold Path.abspath. destruct (Path.startswith_slash s); reflexivity.
Qed.

Lemma split_slash_free (s c : string) : In c (Path.split s) -> slash_free c.
Proof.
  revert c. induction s as [|a s IH]; intros c Hin.
  - destruct Hin as [<-|[]]. reflexivity.
  - simpl in Hin. destruct (Ascii.eqb a Path.slash) eqn:Ha.
    + destruct Hin as [<-|Hin]; [reflexivity | auto].
    + destruct (Path.split s) as [|w ws].
      * destruct Hin as [<-|[]]. unfold slash_free. simpl. rewrite Ha. reflexivity.
      * destruct Hin as [<-|Hin].
        -- unfold slash_free. simpl. rewrite Ha. apply IH. left; reflexivity.
        -- apply IH. right; exact Hin.
Qed.

Lemma split_one (c : string) : slash_free c -> Path.split c = [c].
Proof.
  unfold slash_free. induction c as [|a c IH]; intros H; [reflexivity|].
  simpl in *. apply orb_false_iff in H as [Ha Hc].
  rewrite Ha, (IH Hc). reflexivity.
Qed.

Lemma split_app (c s : string) :
  slash_free c -> Path.split (c ++ String Path.slash s)%string = c :: Path.split s.
Proof.
  unfold slash_free. induction c as [|a c IH]; intros H.
  - reflexivity.
  - simpl in *. apply orb_false_iff in H as [Ha Hc].
    rewrite Ha, (IH Hc). reflexivity.
Qed.

Lemma split_join (cs : list string) :
  cs <> [] -> Forall slash_free cs -> Path.split (Path.join cs) = cs.
Proof.
  unfold Path.join. induction cs as [|c cs IH]; intros Hne Hall; [congruence|].
  inversion Hall as [|? ? Hc Hcs]; subst.
  destruct cs as [|c' cs'].
  - simpl. apply split_one, Hc.
  - change (String.concat "/" (c :: c' :: cs'))
      with (c ++ String Path.slash (String.concat "/" (c' :: cs')))%string.
    rewrite (split_app _ _ Hc), IH; [reflexivity | discriminate | exact Hcs].
Qed.

Lemma resolve_kept (cs stack : list string) :
  Forall kept cs -> Path.resolve cs stack = Some (rev stack ++ cs)%list.
Proof.
  revert stack. induction cs as [|c cs IH]; intros stack Hall; simpl.
  - rewrite app_nil_r. reflexivity.
  - inversion Hall as [|? ? (_ & H1 & H2 & H3) Hcs]; subst.
    apply String.eqb_neq in H1, H2, H3. rewrite H1, H2, H3. simpl.
    rewrite (IH _ Hcs). simpl. rewrite <- app_assoc. reflexivity.
Qed.

Lemma resolve_yields_kept (cs stack out : list string) :
  (forall c, In c cs -> slash_free c) ->
  Forall kept stack ->
  Path.resolve cs stack = Some out -> Forall kept out.
Proof.
  revert stack. induction cs as [|c cs IH]; intros stack Hfree Hstack H; simpl in H.
  - inversion H; subst. apply Forall_rev, Hstack.
  - assert (Hfree' : forall c', In c' cs -> slash_free c')
      by (intros; apply Hfree; right; assumption).
    destruct (String.eqb c "..") eqn:H3.
    + destruct stack as [|x stack']; [discriminate|].
      inversion Hstack; subst. eapply IH; eauto.
    + destruct (String.eqb c "") eqn:H1; [eapply IH; eauto|].
      destruct (String.eqb c ".") eqn:H2; [eapply IH; eauto|].
      simpl in H. eapply IH; [exact Hfree' | | exact H].
      constructor; [|exact Hstack].
      apply String.eqb_neq in H1, H2, H3.
      split; [apply Hfree; left; reflexivity | auto].
Qed.

(** Normalising a normalised path gives the same components, with or
    without the leading separator. *)
Lemma resolve_split_normpath (path np : string) :
  Path.normpath path = Ok np ->
  Path.resolve (Path.split np) [] = Path.resolve (Path.split path) [].
Proof.
  unfold Path.normpath, Path.parts.
  destruct (Path.resolve (Path.split path) []) as [cs|] eqn:Hcs; [|discriminate].
  intros H; inversion H; subst np; clear H.
  assert (Hk : Forall kept cs).
  { eapply resolve_yields_kept; [| constructor | exact Hcs].
    intros c; apply split_slash_free. }
  assert (Hj : Path.resolve (Path.split (Path.join cs)) [] = Some cs).
  { destruct cs as [|c cs']; [reflexivity|].
    rewrite split_join; [apply (resolve_kept _ []); exact Hk | discriminate |].
    eapply Forall_impl; [|exact Hk]. intros a Ha; apply Ha. }
  destruct (Path.startswith_slash path); exact Hj.
Qed.

(** ** The directory index of a backend *)

Lemma check_open (self : ReadZipFS.t) :
  ReadZipFS._closed self = false -> ReadZipFS.check self = (Ok tt, self).
Proof.
  intros H. unfold ReadZipFS.check, ReadZipFS.isclosed. rewrite H. reflexivity.
Qed.

(** Once the index was handed out, the backend keeps handing out the
    same one and does not change any more. *)
Lemma directory_cached (self self' : ReadZipFS.t) (d : MemoryFS.t) :
  ReadZipFS._closed self = false ->
  ReadZipFS._directory self = (Ok d, self') ->
  ReadZipFS._closed self' = false
  /\ ReadZipFS._zip self' = ReadZipFS._zip self
  /\ ReadZipFS._directory self' = (Ok d, self').
Proof.
  intros Hopen H.
  unfold ReadZipFS._directory, bind in *.
  rewrite (check_open self Hopen) in H.
  destruct (ReadZipFS._directory_fs self) as [fs|] eqn:Hfs.
  - inversion H; subst. rewrite (check_open self' Hopen), Hfs. auto.
  - destruct (ReadZipFS.add_names _ _) as [[[]|e] fs]; inversion H; subst.
    unfold ReadZipFS.check, ReadZipFS.isclosed. simpl. rewrite Hopen. auto.
Qed.

(** The archive name of a path, read off the index. *)
Lemma path_to_zip_name_cached (self : ReadZipFS.t) (d : MemoryFS.t)
    (path np : string) (isd : bool) :
  ReadZipFS._directory self = (Ok d, self) ->
  Path.normpath path = Ok np ->
  MemoryFS.isdir d (Path.relpath np) = Ok isd ->
  ReadZipFS._path_to_zip_name path self
  = (Ok (if isd then Path.forcedir (Path.relpath np) else Path.relpath np), self).
Proof.
  intros Hd Hn Hi. unfold ReadZipFS._path_to_zip_name, bind, lift, ret.
  rewrite Hn, Hd, Hi. destruct isd; reflexivity.
Qed.

Lemma isdir_of_getinfo (d : MemoryFS.t) (np : string) (b : string * bool) :
  MemoryFS.getinfo d (Path.abspath np) = Ok b ->
  MemoryFS.isdir d (Path.relpath np) = Ok (snd b).
Proof.
  unfold MemoryFS.getinfo, MemoryFS.isdir, Path.parts.
  rewrite resolve_split_abspath, resolve_split_relpath.
  destruct (Path.resolve (Path.split np) []) as [p|]; [|discriminate].
  destruct (MemoryFS.entry d p); [|discriminate].
  intros H; inversion H; reflexivity.
Qed.

(** ** C1 *)

(** C1: on a backend that is not closed, [setinfo], [makedir], [remove],
    [removedir] and [openbin] with a mode containing [w], [+] or [a]
    raise [ResourceReadOnly] carrying the path they were given, for
    every path, and leave the backend (archive and directory index
    included) as it was. *)
Theorem C1_mutations_read_only (self : ReadZipFS.t) (path : string) :
  ReadZipFS._closed self = false ->
  (forall info, ReadZipFS.setinfo path info self = (Raise (ResourceReadOnly path), self))
  /\ (forall permissions recreate,
       ReadZipFS.makedir path permissions recreate self
       = (Raise (ResourceReadOnly path), self))
  /\ (forall mode,
       contains "w" mode || contains "+" mode || contains "a" mode = true ->
       ReadZipFS.openbin path mode self = (Raise (ResourceReadOnly path), self))
  /\ ReadZipFS.remove path self = (Raise (ResourceReadOnly path), self)
  /\ ReadZipFS.removedir path self = (Raise (ResourceReadOnly path), self).
Proof.
  intros Hopen.
  unfold ReadZipFS.setinfo, ReadZipFS.makedir, ReadZipFS.openbin,
    ReadZipFS.remove, ReadZipFS.removedir, bind, raise.
  rewrite (check_open self Hopen).
  repeat split; auto.
  intros mode Hmode. rewrite Hmode. reflexivity.
Qed.

(** ** C10 *)

(** C10: on a backend that is not closed, [readbytes] on a path that the
    index has as a directory raises [ResourceNotFound] carrying that
    path, not [FileExpected]: the method only asks whether the path is
    a file. *)
Theorem C10_readbytes_directory (self self' : ReadZipFS.t) (d : MemoryFS.t)
    (path : string) :
  ReadZipFS._closed self = false ->
  ReadZipFS._directory self = (Ok d, self') ->
  MemoryFS.isdir d path = Ok true ->
  ReadZipFS.readbytes path self = (Raise (ResourceNotFound path), self').
Proof.
  intros Hopen Hd Hdir.
  unfold ReadZipFS.readbytes, bind, lift, raise.
  rewrite (check_open self Hopen), Hd.
  unfold MemoryFS.isdir, MemoryFS.isfile in *.
  destruct (Path.parts path) as [p|e]; [|discriminate].
  destruct (MemoryFS.entry d p) as [[|]|]; try discriminate.
  reflexivity.
Qed.

(** The index answers for the archive name of a path as it answers for
    the path. *)
Lemma isdir_relpath_normpath (d : MemoryFS.t) (path np : string) (b : bool) :
  Path.normpath path = Ok np ->
  MemoryFS.isdir d path = Ok b ->
  MemoryFS.isdir d (Path.relpath np) = Ok b.
Proof.
  intros Hn. unfold MemoryFS.isdir, Path.parts.
  rewrite resolve_split_relpath, (resolve_split_normpath _ _ Hn).
  destruct (Path.resolve (Path.split path) []); [auto | discriminate].
Qed.

(** ** [openbin] with a reading mode *)

(** X22: on a backend that is not closed, [openbin] with a mode without
    [w], [+] and [a] raises [ResourceNotFound] for a path that is not
    in the index and [FileExpected] for one that is a directory there;
    for any other path it opens the archive record stored under the
    path's archive name, and when the archive has that record the
    stream holds its contents and stands at offset 0. *)
Theorem openbin_outcome (self self' : ReadZipFS.t) (d : MemoryFS.t)
    (path mode : string) :
  ReadZipFS._closed self = false ->
  contains "w" mode || contains "+" mode || contains "a" mode = false ->
  ReadZipFS._directory self = (Ok d, self') ->
  (MemoryFS.exists_ d path = Ok false ->
   ReadZipFS.openbin path mode self = (Raise (ResourceNotFound path), self'))
  /\ (MemoryFS.isdir d path = Ok true ->
      ReadZipFS.openbin path mode self = (Raise (FileExpected path), self'))
  /\ (forall np zip_info,
       MemoryFS.exists_ d path = Ok true ->
       MemoryFS.isdir d path = Ok false ->
       Path.normpath path = Ok np ->
       ZipFile.lookup (Path.relpath np) (ZipFile.filelist (ReadZipFS._zip self))
       = Some zip_info ->
       ReadZipFS.openbin path mode self
       = (Ok {| ZipFile.stream_data := ZipFile.contents zip_info;
                ZipFile.stream_offset := 0 |}, self')).
Proof.
  intros Hopen Hmode Hd.
  destruct (directory_cached _ _ _ Hopen Hd) as (Hopen' & Hzip & Hd').
  unfold ReadZipFS.openbin, bind, lift, raise.
  rewrite (check_open self Hopen), Hmode, Hd.
  split; [|split].
  - intros Hex. rewrite Hex. reflexivity.
  - intros Hdir.
    assert (Hex : MemoryFS.exists_ d path = Ok true).
    { unfold MemoryFS.isdir, MemoryFS.exists_ in *.
      destruct (Path.parts path) as [p|e]; [|discriminate].
      destruct (MemoryFS.entry d p) as [[|]|]; try discriminate; reflexivity. }
    rewrite Hex. simpl. rewrite Hd', Hdir. reflexivity.
  - intros np zip_info Hex Hdir Hn Hz.
    rewrite Hex. simpl. rewrite Hd', Hdir.
    rewrite (path_to_zip_name_cached _ _ _ _ _ Hd' Hn
               (isdir_relpath_normpath _ _ _ _ Hn Hdir)).
    unfold ZipFile.open, ZipFile.getinfo. rewrite Hzip, Hz. reflexivity.
Qed.

(** ** C7 *)

(** C7: on a backend that is not closed, for a path other than the root
    that the index has, and whose archive name has no record in the
    archive's table, [getinfo] with [details], [access] or [zip] among
    the namespaces returns the basic namespace alone: the namespaces
    that need the record are left out and nothing is raised. *)
Theorem C7_getinfo_implied_directory (self self' : ReadZipFS.t) (d : MemoryFS.t)
    (path np : string) (namespaces : list string) (basic_info : string * bool) :
  ReadZipFS._closed self = false ->
  ReadZipFS._directory self = (Ok d, self') ->
  Path.normpath path = Ok np ->
  Path.abspath np <> "/" ->
  MemoryFS.getinfo d (Path.abspath np) = Ok basic_info ->
  mem "details" namespaces || mem "access" namespaces || mem "zip" namespaces = true ->
  ZipFile.lookup
    (if snd basic_info then Path.forcedir (Path.relpath np) else Path.relpath np)
    (ZipFile.filelist (ReadZipFS._zip self)) = None ->
  ReadZipFS.getinfo path namespaces self
  = (Ok {| basic := basic_info; details := None; zip := None; access := None |},
     self').
Proof.
  intros Hopen Hd Hn Hroot Hinfo Hns Hz.
  destruct (directory_cached _ _ _ Hopen Hd) as (Hopen' & Hzip & Hd').
  unfold ReadZipFS.getinfo, ReadZipFS.validatepath, bind, lift, ret.
  rewrite (check_open self Hopen), Hn.
  apply String.eqb_neq in Hroot. rewrite Hroot, Hd, Hinfo, Hns.
  rewrite (path_to_zip_name_cached _ _ _ _ _ Hd' Hn (isdir_of_getinfo _ _ _ Hinfo)).
  unfold ZipFile.getinfo. rewrite Hzip, Hz. reflexivity.
Qed.

(** ** C9 *)

(** C9: on a backend that is not closed, for a path other than the root
    that the index has and whose archive name has a record, [getinfo]
    with [access] among the namespaces returns (provided that, when
    [details] is asked for too, the record's date is one [datetime]
    accepts), and the access namespace of what it returns is filled if
    and only if the record's [create_system] is 3 and its
    [external_attr] is not zero; when filled it holds the permissions
    of mode [(external_attr >> 16) & 0xFFF]. *)
Theorem C9_getinfo_access (self self' : ReadZipFS.t) (d : MemoryFS.t)
    (path np : string) (namespaces : list string) (basic_info : string * bool)
    (zip_info : ZipFile.ZipInfo) :
  ReadZipFS._closed self = false ->
  ReadZipFS._directory self = (Ok d, self') ->
  Path.normpath path = Ok np ->
  Path.abspath np <> "/" ->
  MemoryFS.getinfo d (Path.abspath np) = Ok basic_info ->
  ZipFile.lookup
    (if snd basic_info then Path.forcedir (Path.relpath np) else Path.relpath np)
    (ZipFile.filelist (ReadZipFS._zip self)) = Some zip_info ->
  mem "access" namespaces = true ->
  (mem "details" namespaces = false
   \/ exists dt, Time.make_datetime (ZipFile.date_time zip_info) = Ok dt) ->
  exists info,
    ReadZipFS.getinfo path namespaces self = (Ok info, self')
    /\ basic info = basic_info
    /\ ((exists perms, access info = Some perms)
        <-> (ZipFile.create_system zip_info = 3
             /\ ZipFile.external_attr zip_info <> 0)%Z)
    /\ (forall perms, access info = Some perms ->
        perms = mkPermissions
                  (Z.land (Z.shiftr (ZipFile.external_attr zip_info) 16) 4095))
    /\ (ZipFile.create_system zip_info <> 3%Z -> access info = None).
Proof.
  intros Hopen Hd Hn Hroot Hinfo Hz Hacc Hdet.
  destruct (directory_cached _ _ _ Hopen Hd) as (Hopen' & Hzip & Hd').
  unfold ReadZipFS.getinfo, ReadZipFS.validatepath, bind, lift, ret.
  rewrite (check_open self Hopen), Hn.
  apply String.eqb_neq in Hroot. rewrite Hroot, Hd, Hinfo, Hacc.
  rewrite orb_true_r. simpl.
  rewrite (path_to_zip_name_cached _ _ _ _ _ Hd' Hn (isdir_of_getinfo _ _ _ Hinfo)).
  unfold ZipFile.getinfo. rewrite Hzip, Hz.
  assert (Hcond :
    forall o : option Permissions,
      o = (if negb (ZipFile.external_attr zip_info =? 0)%Z
              && (ZipFile.create_system zip_info =? 3)%Z
           then Some (mkPermissions
                        (Z.land (Z.shiftr (ZipFile.external_attr zip_info) 16) 4095))
           else None) ->
      ((exists perms, o = Some perms)
       <-> (ZipFile.create_system zip_info = 3
            /\ ZipFile.external_attr zip_info <> 0)%Z)
      /\ (forall perms, o = Some perms ->
          perms = mkPermissions
                    (Z.land (Z.shiftr (ZipFile.external_attr zip_info) 16) 4095))
      /\ (ZipFile.create_system zip_info <> 3%Z -> o = None)).
  { intros o ->.
    destruct (Z.eqb_spec (ZipFile.external_attr zip_info) 0) as [He|He];
      destruct (Z.eqb_spec (ZipFile.create_system zip_info) 3) as [Hc|Hc]; simpl;
      (split; [split; [intros [? ?]; try discriminate; auto
                      | intros [? ?]; try contradiction; eauto]
              |split; [intros perms H; inversion H; reflexivity
                      | intros; auto; try contradiction]]). }
  destruct Hdet as [Hdet | [dt Hdt]].
  - rewrite Hdet. eexists. split; [reflexivity|]. split; [reflexivity|].
    apply Hcond. reflexivity.
  - rewrite Hdt. destruct (mem "details" namespaces);
      (eexists; split; [reflexivity|]; split; [reflexivity|];
       apply Hcond; reflexivity).
Qed.

(** ** The write backend: C2, C3, C4 *)

Lemma read_close_twice (self : ReadZipFS.t) :
  ReadZipFS.close (snd (ReadZipFS.close self)) = (Ok tt, snd (ReadZipFS.close self)).
Proof. reflexivity. Qed.

Section WriteBackend.

Variable TempFS : Type.
Variable World : Type.
Variable temp_close : TempFS -> result unit * TempFS.
Variable compress_write_zip :
  TempFS -> string -> Z -> string -> World -> result unit * World.

Local Abbreviation close :=
  (WriteZipFS.close TempFS World temp_close compress_write_zip).
Local Abbreviation write_zip :=
  (WriteZipFS.write_zip TempFS World compress_write_zip).

(** On a closed instance [close] returns and changes nothing. *)
Lemma write_close_closed (self : WriteZipFS.t TempFS) (w : World) :
  WriteZipFS._closed TempFS self = true ->
  close (self, w) = (Ok tt, (self, w)).
Proof.
  intros H. unfold WriteZipFS.close, bind, WriteZipFS.isclosed. simpl.
  rewrite H. simpl. destruct self; simpl in *. subst. reflexivity.
Qed.

(** A [close] that returns leaves the instance closed; when it found
    the instance open it called the serializer once, on the scratch
    backend and with the instance's target, compression and encoding. *)
Lemma write_close_returns (self self' : WriteZipFS.t TempFS) (w w' : World) :
  close (self, w) = (Ok tt, (self', w')) ->
  WriteZipFS._closed TempFS self' = true
  /\ (WriteZipFS._closed TempFS self = false ->
      w' = snd (compress_write_zip (WriteZipFS._temp_fs TempFS self)
                  (WriteZipFS._file TempFS self)
                  (WriteZipFS.compression TempFS self)
                  (WriteZipFS.encoding TempFS self) w))
  /\ (WriteZipFS._closed TempFS self = true -> w' = w).
Proof.
  unfold WriteZipFS.close, bind, WriteZipFS.isclosed,
    WriteZipFS.try_finally, WriteZipFS.write_zip, WriteZipFS.close_temp_fs,
    WriteZipFS.super_close, WriteZipFS.isclosed.
  simpl. destruct (WriteZipFS._closed TempFS self) eqn:Hc; simpl.
  - intros H; inversion H; subst. simpl. repeat split; auto; discriminate.
  - destruct (compress_write_zip _ _ _ _ w) as [r w1] eqn:Hw. simpl.
    destruct (temp_close _) as [[[]|e2] fs']; simpl.
    + destruct r as [[]|e]; intros H; inversion H; subst.
      simpl. repeat split; auto; discriminate.
    + discriminate.
Qed.

(** C2, as the code has it: when a [close] of a write backend has
    returned, a further [close] returns too and changes neither the
    instance nor the world (so it does not call the serializer,
    whatever the serializer is), and the first one called the
    serializer exactly once if it found the instance open; on a read
    backend a second [close] returns and changes nothing. *)
Theorem C2_close_idempotent (self self' : WriteZipFS.t TempFS) (w w' : World) :
  close (self, w) = (Ok tt, (self', w')) ->
  close (self', w') = (Ok tt, (self', w'))
  /\ (WriteZipFS._closed TempFS self = false ->
      w' = snd (compress_write_zip (WriteZipFS._temp_fs TempFS self)
                  (WriteZipFS._file TempFS self)
                  (WriteZipFS.compression TempFS self)
                  (WriteZipFS.encoding TempFS self) w))
  /\ (forall rself : ReadZipFS.t,
       ReadZipFS.close (snd (ReadZipFS.close rself))
       = (Ok tt, snd (ReadZipFS.close rself))).
Proof.
  intros H. destruct (write_close_returns _ _ _ _ H) as (Hc & Hw & _).
  split; [apply write_close_closed, Hc|].
  split; [exact Hw | exact read_close_twice].
Qed.

(** C3, as the code has it: on a closed instance [write_zip] returns
    without an error and without calling the serializer; instance
    and world are as before. *)
Theorem C3_write_zip_closed (self : WriteZipFS.t TempFS) (w : World)
    (file : option string) (compression : option Z) (encoding : option string) :
  WriteZipFS._closed TempFS self = true ->
  write_zip file compression encoding (self, w) = (Ok tt, (self, w)).
Proof.
  intros H. unfold WriteZipFS.write_zip, WriteZipFS.isclosed.
  rewrite H. reflexivity.
Qed.

(** C4: when the serializer raises during the [close] of an open
    instance, the scratch backend's [close] has run when [close]
    raises: the instance holds the scratch backend as its [close]
    left it.  The error raised is the serializer's, unless the
    scratch backend's [close] raised one itself. *)
Theorem C4_close_releases_scratch (self : WriteZipFS.t TempFS) (w w' : World)
    (e : Error) :
  WriteZipFS._closed TempFS self = false ->
  compress_write_zip (WriteZipFS._temp_fs TempFS self)
    (WriteZipFS._file TempFS self) (WriteZipFS.compression TempFS self)
    (WriteZipFS.encoding TempFS self) w = (Raise e, w') ->
  close (self, w)
  = (Raise (match fst (temp_close (WriteZipFS._temp_fs TempFS self)) with
            | Ok _ => e
            | Raise e' => e'
            end),
     (WriteZipFS.set_temp_fs TempFS
        (snd (temp_close (WriteZipFS._temp_fs TempFS self))) self, w')).
Proof.
  intros Hc Hw.
  unfold WriteZipFS.close, bind, WriteZipFS.isclosed,
    WriteZipFS.try_finally, WriteZipFS.write_zip, WriteZipFS.close_temp_fs,
    WriteZipFS.isclosed.
  simpl. rewrite Hc. simpl. rewrite Hw.
  destruct (temp_close _) as [[[]|e2] fs']; reflexivity.
Qed.

End WriteBackend.

(** *** Concrete runs *)

Lemma C1_witness :
  ReadZipFS.setinfo "/x/y.txt"
    {| basic := ("y.txt", false); details := None; zip := None; access := None |}
    Examples.implied
  = (Raise (ResourceReadOnly "/x/y.txt"), Examples.implied)
  /\ ReadZipFS.openbin "/new.txt" "wb" Examples.implied
     = (Raise (ResourceReadOnly "/new.txt"), Examples.implied).
Proof.
  split.
  - apply (C1_mutations_read_only Examples.implied "/x/y.txt"). reflexivity.
  - apply (C1_mutations_read_only Examples.implied "/new.txt"); reflexivity.
Defined.

Lemma C10_witness :
  ReadZipFS.readbytes "/x" Examples.implied
  = (Raise (ResourceNotFound "/x"), snd (ReadZipFS._directory Examples.implied)).
Proof.
  apply (C10_readbytes_directory Examples.implied _
           [(["x"], true); (["x"; "y.txt"], false)] "/x"); reflexivity.
Defined.

Lemma openbin_outcome_witness :
  fst (ReadZipFS.openbin "/x/y.txt" "rb" Examples.implied)
  = Ok {| ZipFile.stream_data := Examples.hi; ZipFile.stream_offset := 0 |}
  /\ fst (ReadZipFS.openbin "/x" "rb" Examples.implied) = Raise (FileExpected "/x")
  /\ fst (ReadZipFS.openbin "/z" "rb" Examples.implied) = Raise (ResourceNotFound "/z").
Proof.
  split; [|split].
  - destruct (openbin_outcome Examples.implied _
                [(["x"], true); (["x"; "y.txt"], false)] "/x/y.txt" "rb"
                eq_refl eq_refl eq_refl) as (_ & _ & H).
    rewrite (H "/x/y.txt" (Examples.record "x/y.txt" Examples.hi)
               eq_refl eq_refl eq_refl eq_refl).
    reflexivity.
  - destruct (openbin_outcome Examples.implied _
                [(["x"], true); (["x"; "y.txt"], false)] "/x" "rb"
                eq_refl eq_refl eq_refl) as (_ & H & _).
    rewrite (H eq_refl). reflexivity.
  - destruct (openbin_outcome Examples.implied _
                [(["x"], true); (["x"; "y.txt"], false)] "/z" "rb"
                eq_refl eq_refl eq_refl) as (H & _ & _).
    rewrite (H eq_refl). reflexivity.
Defined.

(** C8: [openbin] does not return a stream for every file of the index.
    The index is filled with the canonical paths of the archive's
    names, and the record is looked up under the canonical path of the
    path asked for.  An archive that stores a file as ["./a.txt"] (or
    as ["/a"]) has the file [/a.txt] (or [/a]) in its index, not as a
    directory, and [openbin] on it raises the [KeyError] of
    [ZipFile.open], as [readbytes] does; [getinfo] catches that
    [KeyError] and returns. *)
Theorem C8_openbin_unnormalised_name :
  let dotted := ReadZipFS.__init__ "dotted.zip" "utf-8"
                  [Examples.record "./a.txt" Examples.hi] in
  (exists d,
     fst (ReadZipFS._directory dotted) = Ok d
     /\ MemoryFS.exists_ d "/a.txt" = Ok true
     /\ MemoryFS.isdir d "/a.txt" = Ok false
     /\ fst (ReadZipFS.openbin "/a.txt" "r" dotted) = Raise (KeyError "a.txt")
     /\ fst (ReadZipFS.readbytes "/a.txt" dotted) = Raise (KeyError "a.txt")
     /\ fst (ReadZipFS.getinfo "/a.txt" ["details"] dotted)
        = Ok {| basic := ("a.txt", false); details := None; zip := None;
                access := None |})
  /\ (exists d,
        fst (ReadZipFS._directory Examples.absolute) = Ok d
        /\ MemoryFS.exists_ d "/a" = Ok true
        /\ MemoryFS.isdir d "/a" = Ok false
        /\ fst (ReadZipFS.openbin "/a" "r" Examples.absolute) = Raise (KeyError "a")).
Proof.
  split.
  - exists [(["a.txt"], false)]. repeat split.
  - exists [(["a"], false)]. repeat split.
Qed.

Lemma C7_witness :
  fst (ReadZipFS.getinfo "/x" ["details"; "access"; "zip"] Examples.implied)
  = Ok {| basic := ("x", true); details := None; zip := None; access := None |}.
Proof.
  rewrite (C7_getinfo_implied_directory Examples.implied
             (snd (ReadZipFS._directory Examples.implied))
             [(["x"], true); (["x"; "y.txt"], false)]
             "/x" "/x" ["details"; "access"; "zip"] ("x", true));
    try reflexivity.
  discriminate.
Defined.

Lemma C9_witness :
  exists info,
    fst (ReadZipFS.getinfo "/x/y.txt" ["access"; "details"] Examples.implied) = Ok info
    /\ access info = Some (mkPermissions 420).
Proof.
  destruct (C9_getinfo_access Examples.implied
              (snd (ReadZipFS._directory Examples.implied))
              [(["x"], true); (["x"; "y.txt"], false)]
              "/x/y.txt" "/x/y.txt" ["access"; "details"] ("y.txt", false)
              (Examples.record "x/y.txt" Examples.hi))
    as (info & Hget & _ & Hiff & Hmode & _); try reflexivity.
  - discriminate.
  - right. eexists. reflexivity.
  - exists info. split; [rewrite Hget; reflexivity|].
    destruct Hiff as [_ Hfill].
    destruct Hfill as [perms Hperms]; [split; [reflexivity | discriminate]|].
    rewrite Hperms. f_equal. apply Hmode, Hperms.
Defined.

Lemma C2_witness :
  WriteZipFS.close bool (list string) Examples.temp_close Examples.compress_write_zip
    (snd (WriteZipFS.close bool (list string) Examples.temp_close
            Examples.compress_write_zip (Examples.writer "out.zip" false, [])))
  = (Ok tt,
     ({| WriteZipFS._file := "out.zip"; WriteZipFS.compression := 8;
         WriteZipFS.encoding := "utf-8"; WriteZipFS._temp_fs := true;
         WriteZipFS._closed := true |}, ["out.zip"])).
Proof.
  apply (C2_close_idempotent bool (list string) Examples.temp_close
           Examples.compress_write_zip (Examples.writer "out.zip" false) _ [] _).
  reflexivity.
Defined.

(** The target cannot be written: the first [close] raises and leaves
    the instance open, and the second one calls the serializer again
    and raises again. *)
Lemma C2_counterexample :
  let close := WriteZipFS.close bool (list string) Examples.temp_close
                 Examples.compress_write_zip in
  let s1 := snd (close (Examples.writer "missing/out.zip" false, [])) in
  snd s1 = ["missing/out.zip"]
  /\ fst (close s1) = Raise (OSError "No such file or directory")
  /\ snd (snd (close s1)) = ["missing/out.zip"; "missing/out.zip"].
Proof. repeat split. Qed.

Lemma C3_witness :
  WriteZipFS.write_zip bool (list string) Examples.compress_write_zip
    (Some "other.zip") None None (Examples.writer "out.zip" true, [])
  = (Ok tt, (Examples.writer "out.zip" true, [])).
Proof.
  apply (C3_write_zip_closed bool (list string) Examples.compress_write_zip).
  reflexivity.
Defined.

(** [write_zip] on a closed instance returns; it does not raise, even
    for a target the serializer could not write. *)
Lemma C3_counterexample :
  WriteZipFS.write_zip bool (list string) Examples.compress_write_zip
    None None None (Examples.writer "missing/out.zip" true, [])
  = (Ok tt, (Examples.writer "missing/out.zip" true, [])).
Proof. reflexivity. Qed.

Lemma C4_witness :
  WriteZipFS.close bool (list string) Examples.temp_close Examples.compress_write_zip
    (Examples.writer "missing/out.zip" false, [])
  = (Raise (OSError "No such file or directory"),
     ({| WriteZipFS._file := "missing/out.zip"; WriteZipFS.compression := 8;
         WriteZipFS.encoding := "utf-8"; WriteZipFS._temp_fs := true;
         WriteZipFS._closed := false |}, ["missing/out.zip"])).
Proof.
  apply (C4_close_releases_scratch bool (list string) Examples.temp_close
           Examples.compress_write_zip (Examples.writer "missing/out.zip" false)
           [] ["missing/out.zip"] (OSError "No such file or directory"));
    reflexivity.
Defined.

(** ** Building the directory index *)

Lemma path_eqb_eq (p q : list string) : Path.path_eqb p q = true <-> p = q.
Proof.
  unfold Path.path_eqb. destruct (list_eq_dec string_dec p q); split; congruence.
Qed.

Lemma path_eqb_refl (p : list string) : Path.path_eqb p p = true.
Proof. apply path_eqb_eq. reflexivity. Qed.

Lemma path_eqb_sym (p q : list string) : Path.path_eqb p q = Path.path_eqb q p.
Proof.
  unfold Path.path_eqb.
  destruct (list_eq_dec string_dec p q), (list_eq_dec string_dec q p); congruence.
Qed.

Lemma assoc_snoc (fs : MemoryFS.t) (p q : list string) (b : bool) :
  MemoryFS.assoc q (fs ++ [(p, b)])
  = match MemoryFS.assoc q fs with
    | Some b' => Some b'
    | None => if Path.path_eqb q p then Some b else None
    end.
Proof.
  induction fs as [|[p' b'] fs IH]; simpl.
  - rewrite path_eqb_sym. reflexivity.
  - destruct (Path.path_eqb p' q); [reflexivity | exact IH].
Qed.

(** A new node does not change the nodes that are there. *)
Lemma entry_snoc (fs : MemoryFS.t) (p q : list string) (b : bool) :
  p <> [] ->
  MemoryFS.entry (fs ++ [(p, b)]) q
  = match MemoryFS.entry fs q with
    | Some b' => Some b'
    | None => if Path.path_eqb q p then Some b else None
    end.
Proof.
  intros Hp. destruct q as [|c q]; [reflexivity|].
  unfold MemoryFS.entry. apply assoc_snoc.
Qed.

Lemma snoc_not_nil (done : list string) (c : string) : (done ++ [c])%list <> [].
Proof. destruct done; discriminate. Qed.

Lemma makedirs_from_entry (path : string) (rest done : list string)
    (fs fs' : MemoryFS.t) :
  MemoryFS.makedirs_from path done rest fs = (Ok tt, fs') ->
  forall q,
    MemoryFS.entry fs' q
    = match MemoryFS.entry fs q with
      | Some b => Some b
      | None => if existsb (Path.path_eqb q) (Index.prefixes_from done rest)
                then Some true else None
      end.
Proof.
  revert done fs. induction rest as [|c rest IH]; intros done fs H q; simpl in *.
  - inversion H; subst. destruct (MemoryFS.entry fs' q); reflexivity.
  - destruct (MemoryFS.entry fs (done ++ [c])) as [[|]|] eqn:He.
    + rewrite (IH _ _ H q).
      destruct (MemoryFS.entry fs q) eqn:Hq; [reflexivity|].
      destruct (Path.path_eqb q (done ++ [c])) eqn:Heq; [|reflexivity].
      apply path_eqb_eq in Heq; subst q. congruence.
    + discriminate.
    + rewrite (IH _ _ H q), (entry_snoc _ _ _ _ (snoc_not_nil done c)).
      destruct (MemoryFS.entry fs q); [reflexivity|].
      destruct (Path.path_eqb q (done ++ [c])); reflexivity.
Qed.

(** A file where a directory is wanted makes [makedirs] raise. *)
Lemma makedirs_from_blocked (path : string) (rest done : list string)
    (fs : MemoryFS.t) (q : list string) :
  MemoryFS.entry fs q = Some false ->
  existsb (Path.path_eqb q) (Index.prefixes_from done rest) = true ->
  exists e fs', MemoryFS.makedirs_from path done rest fs = (Raise e, fs').
Proof.
  revert done fs. induction rest as [|c rest IH]; intros done fs Hq Hin; simpl in *.
  - discriminate.
  - destruct (MemoryFS.entry fs (done ++ [c])) as [[|]|] eqn:He.
    + destruct (Path.path_eqb q (done ++ [c])) eqn:Heq.
      * apply path_eqb_eq in Heq; subst q. congruence.
      * apply IH; assumption.
    + eauto.
    + destruct (Path.path_eqb q (done ++ [c])) eqn:Heq.
      * apply path_eqb_eq in Heq; subst q. congruence.
      * apply IH; [|assumption].
        rewrite (entry_snoc _ _ _ _ (snoc_not_nil done c)), Hq. reflexivity.
Qed.

Lemma parts_resolve (path : string) (p : list string) :
  Path.parts path = Ok p <-> Path.resolve (Path.split path) [] = Some p.
Proof.
  unfold Path.parts. destruct (Path.resolve _ _); split; congruence.
Qed.

(** What one turn of the loop leaves in the tree when it does not
    raise. *)
Lemma add_name_entry (zip_name : string) (fs fs' : MemoryFS.t) :
  ReadZipFS.add_name zip_name fs = (Ok tt, fs') ->
  forall q,
    MemoryFS.entry fs' q
    = match MemoryFS.entry fs q with
      | Some b => Some b
      | None => Index.node [zip_name] q
      end.
Proof.
  unfold ReadZipFS.add_name, Index.node, Index.dirs_of, Index.files_of.
  simpl. rewrite !app_nil_r.
  destruct (Path.endswith_slash zip_name).
  - unfold MemoryFS.makedirs, bind, lift, Path.parts.
    destruct (Path.resolve (Path.split zip_name) []) as [p|]; [|discriminate].
    intros H q. rewrite (makedirs_from_entry _ _ _ _ _ H q).
    destruct (MemoryFS.entry fs q); [reflexivity|].
    destruct (existsb _ _); reflexivity.
  - unfold MemoryFS.makedirs, MemoryFS.create, bind, lift, ret, Path.parts.
    destruct (Path.resolve (Path.split (Path.dirname zip_name)) []) as [dp|];
      [|discriminate].
    destruct (MemoryFS.makedirs_from _ _ _ fs) as [[[]|e] fs1] eqn:Hm; [|discriminate].
    destruct (Path.resolve (Path.split zip_name) []) as [p|]; [|discriminate].
    intros H q. simpl. rewrite orb_false_r.
    pose proof (makedirs_from_entry _ _ _ _ _ Hm q) as H1.
    destruct (MemoryFS.entry fs1 p) as [b|] eqn:Hp.
    + inversion H; subst fs'. rewrite H1.
      destruct (MemoryFS.entry fs q) eqn:Hq; [reflexivity|].
      destruct (existsb _ _); [reflexivity|].
      destruct (Path.path_eqb q p) eqn:Heq; [|reflexivity].
      apply path_eqb_eq in Heq; subst q. congruence.
    + assert (Hne : p <> []) by (intros ->; discriminate).
      destruct (MemoryFS.entry fs1 (removelast p)) as [[|]|]; try discriminate.
      inversion H; subst fs'.
      rewrite (entry_snoc _ _ _ _ Hne), H1.
      destruct (MemoryFS.entry fs q); [reflexivity|].
      destruct (existsb _ _); reflexivity.
Qed.

Lemma add_name_blocked (zip_name : string) (fs : MemoryFS.t) (q : list string) :
  MemoryFS.entry fs q = Some false ->
  existsb (Path.path_eqb q) (Index.dirs_of zip_name) = true ->
  exists e fs', ReadZipFS.add_name zip_name fs = (Raise e, fs').
Proof.
  intros Hq. unfold ReadZipFS.add_name, Index.dirs_of.
  destruct (Path.endswith_slash zip_name);
    unfold MemoryFS.makedirs, bind, lift, Path.parts;
    destruct (Path.resolve _ _) as [p|]; try discriminate; intros Hin.
  - destruct (makedirs_from_blocked zip_name _ _ _ _ Hq Hin) as (e & fs' & He).
    rewrite He. eauto.
  - destruct (makedirs_from_blocked (Path.dirname zip_name) _ _ _ _ Hq Hin)
      as (e & fs' & He).
    rewrite He. eauto.
Qed.

Lemma node_cons (zip_name : string) (names : list string) (q : list string) :
  Index.node (zip_name :: names) q
  = match Index.node [zip_name] q, Index.node names q with
    | Some true, _ | _, Some true => Some true
    | Some false, _ | _, Some false => Some false
    | None, None => None
    end.
Proof.
  unfold Index.node. simpl. rewrite !app_nil_r, !existsb_app.
  destruct (existsb _ (Index.dirs_of zip_name)),
    (existsb _ (flat_map Index.dirs_of names)),
    (existsb _ (Index.files_of zip_name)),
    (existsb _ (flat_map Index.files_of names)); reflexivity.
Qed.

Lemma add_names_blocked (names : list string) (fs : MemoryFS.t) (q : list string) :
  MemoryFS.entry fs q = Some false ->
  existsb (Path.path_eqb q) (flat_map Index.dirs_of names) = true ->
  exists e fs', ReadZipFS.add_names names fs = (Raise e, fs').
Proof.
  revert fs. induction names as [|s names IH]; intros fs Hq Hin; simpl in *.
  - discriminate.
  - unfold bind. rewrite existsb_app in Hin.
    destruct (ReadZipFS.add_name s fs) as [[[]|e] fs1] eqn:Hs; [|eauto].
    destruct (existsb (Path.path_eqb q) (Index.dirs_of s)) eqn:Hd.
    + destruct (add_name_blocked _ _ _ Hq Hd) as (e & fs' & He). congruence.
    + apply IH; [|exact Hin].
      rewrite (add_name_entry _ _ _ Hs q), Hq. reflexivity.
Qed.

(** What the loop of [_directory] leaves in the tree when it runs to
    its end: the nodes it found, and for every other path the node that
    the names ask for. *)
Lemma add_names_entry (names : list string) (fs fs' : MemoryFS.t) :
  ReadZipFS.add_names names fs = (Ok tt, fs') ->
  forall q,
    MemoryFS.entry fs' q
    = match MemoryFS.entry fs q with
      | Some b => Some b
      | None => Index.node names q
      end.
Proof.
  revert fs. induction names as [|s names IH]; intros fs H q; simpl in H.
  - inversion H; subst. destruct (MemoryFS.entry fs' q); reflexivity.
  - unfold bind in H.
    destruct (ReadZipFS.add_name s fs) as [[[]|e] fs1] eqn:Hs; [|discriminate].
    rewrite (IH _ H q), (add_name_entry _ _ _ Hs q), (node_cons s names q).
    destruct (MemoryFS.entry fs q) eqn:Hq; [reflexivity|].
    destruct (Index.node [s] q) as [[|]|] eqn:Hn; [reflexivity| |].
    + destruct (Index.node names q) as [[|]|] eqn:Hn'; try reflexivity.
      exfalso.
      assert (Hf : MemoryFS.entry fs1 q = Some false)
        by (rewrite (add_name_entry _ _ _ Hs q), Hq; exact Hn).
      assert (Hin : existsb (Path.path_eqb q) (flat_map Index.dirs_of names) = true).
      { unfold Index.node in Hn'.
        destruct (existsb _ (flat_map Index.dirs_of names)); [reflexivity|].
        destruct (existsb _ _); discriminate. }
      destruct (add_names_blocked _ _ _ Hf Hin) as (e & fs'' & He). congruence.
    + destruct (Index.node names q) as [[|]|]; reflexivity.
Qed.

(** ** C6 *)

Lemma existsb_permutation {A : Type} (f : A -> bool) (l l' : list A) :
  Permutation l l' -> existsb f l = existsb f l'.
Proof.
  induction 1 as [|x l l' _ IH|x y l|l l' l'' _ IH1 _ IH2]; simpl.
  - reflexivity.
  - rewrite IH. reflexivity.
  - destruct (f x), (f y); reflexivity.
  - congruence.
Qed.

(** The nodes that a list of names asks for do not depend on the order
    of the names. *)
Lemma node_permutation (names names' : list string) (q : list string) :
  Permutation names names' -> Index.node names q = Index.node names' q.
Proof.
  intros Hp. unfold Index.node.
  rewrite (existsb_permutation _ _ _ (Permutation_flat_map Index.dirs_of Hp)).
  rewrite (existsb_permutation _ _ _ (Permutation_flat_map Index.files_of Hp)).
  reflexivity.
Qed.

Lemma directory_fresh (file encoding : string) (table : list ZipFile.ZipInfo)
    (d : MemoryFS.t) (self' : ReadZipFS.t) :
  ReadZipFS._directory (ReadZipFS.__init__ file encoding table) = (Ok d, self') ->
  ReadZipFS.add_names (map ZipFile.filename table) MemoryFS.empty = (Ok tt, d).
Proof.
  unfold ReadZipFS._directory, ReadZipFS.__init__, bind, ReadZipFS.check,
    ReadZipFS.isclosed, ZipFile.namelist. simpl.
  destruct (ReadZipFS.add_names _ _) as [[[]|e] fs]; intros H; inversion H.
  reflexivity.
Qed.

(** C6, as the code has it: when the index builds without an error from
    an archive and from a second archive that stores the same names in
    another order, the two trees have the same nodes, each with the
    same directory flag. *)
Theorem C6_index_order_independent (file file' encoding encoding' : string)
    (table table' : list ZipFile.ZipInfo) (d d' : MemoryFS.t)
    (self self' : ReadZipFS.t) :
  Permutation (map ZipFile.filename table) (map ZipFile.filename table') ->
  ReadZipFS._directory (ReadZipFS.__init__ file encoding table) = (Ok d, self) ->
  ReadZipFS._directory (ReadZipFS.__init__ file' encoding' table') = (Ok d', self') ->
  Index.same_nodes d d'.
Proof.
  intros Hp H H' q.
  apply directory_fresh in H, H'.
  rewrite (add_names_entry _ _ _ H q), (add_names_entry _ _ _ H' q).
  rewrite (node_permutation _ _ q Hp). reflexivity.
Qed.

Lemma C6_witness :
  Index.same_nodes
    [(["x"], true); (["x"; "y.txt"], false); (["a"], false)]
    [(["a"], false); (["x"], true); (["x"; "y.txt"], false)].
Proof.
  apply (C6_index_order_independent "one.zip" "two.zip" "utf-8" "utf-8"
           [Examples.record "x/y.txt" Examples.hi; Examples.record "a" []]
           [Examples.record "a" []; Examples.record "x/y.txt" Examples.hi]
           _ _
           (snd (ReadZipFS._directory
                   (ReadZipFS.__init__ "one.zip" "utf-8"
                      [Examples.record "x/y.txt" Examples.hi; Examples.record "a" []])))
           (snd (ReadZipFS._directory
                   (ReadZipFS.__init__ "two.zip" "utf-8"
                      [Examples.record "a" []; Examples.record "x/y.txt" Examples.hi])))).
  - apply perm_swap.
  - reflexivity.
  - reflexivity.
Defined.

(** The archive stores the file ["a"] and the file ["a/b"].  With
    ["a/b"] first the index builds and [a] is a directory; with ["a"]
    first the file [a] stands where ["a/b"] needs a directory, the
    build raises, and the tree that stays cached has [a] as a file. *)
Lemma C6_counterexample :
  let one := ReadZipFS.__init__ "one.zip" "utf-8"
               [Examples.record "a/b" Examples.hi; Examples.record "a" []] in
  let two := ReadZipFS.__init__ "two.zip" "utf-8"
               [Examples.record "a" []; Examples.record "a/b" Examples.hi] in
  Permutation (ZipFile.namelist (ReadZipFS._zip one))
    (ZipFile.namelist (ReadZipFS._zip two))
  /\ fst (ReadZipFS._directory one) = Ok [(["a"], true); (["a"; "b"], false)]
  /\ fst (ReadZipFS._directory two) = Raise (DirectoryExpected "a")
  /\ fst (ReadZipFS._directory (snd (ReadZipFS._directory two))) = Ok [(["a"], false)].
Proof.
  repeat split. apply perm_swap.
Qed.

(** ** C5: implied and stored directories *)

Lemma prefixes_from_parent (rest done q : list string) :
  existsb (Path.path_eqb q) (Index.prefixes_from done rest) = true ->
  q <> [] /\ List.length (removelast q) < List.length done + List.length rest.
Proof.
  revert done. induction rest as [|c rest IH]; intros done H; simpl in H.
  - discriminate.
  - apply orb_true_iff in H as [H|H].
    + apply path_eqb_eq in H; subst q. split; [apply snoc_not_nil|].
      rewrite removelast_last. simpl. lia.
    + destruct (IH _ H) as [Hne Hlen]. split; [exact Hne|].
      rewrite length_app in Hlen. simpl in *. lia.
Qed.

(** A directory is not among its own children, nor is any of its
    ancestors. *)
Lemma prefix_not_child (dpath q : list string) (b : bool) :
  existsb (Path.path_eqb q) (Index.prefixes_from [] dpath) = true ->
  MemoryFS.is_child_of dpath (q, b) = false.
Proof.
  intros H. destruct (prefixes_from_parent _ _ _ H) as [Hne Hlen].
  unfold MemoryFS.is_child_of. destruct q as [|c q]; [reflexivity|].
  change (Path.path_eqb (removelast (c :: q)) dpath = false).
  destruct (Path.path_eqb (removelast (c :: q)) dpath) eqn:Heq; [|reflexivity].
  apply path_eqb_eq in Heq. rewrite Heq in Hlen. simpl in Hlen. lia.
Qed.

Lemma prefixes_from_incl (a b done q : list string) :
  Path.is_prefix a b = true ->
  existsb (Path.path_eqb q) (Index.prefixes_from done a) = true ->
  existsb (Path.path_eqb q) (Index.prefixes_from done b) = true.
Proof.
  revert b done. induction a as [|c a IH]; intros b done Hp H; simpl in *.
  - discriminate.
  - destruct b as [|c' b]; [discriminate|].
    apply andb_true_iff in Hp as [Hc Hp]. apply String.eqb_eq in Hc; subst c'.
    simpl. apply orb_true_iff in H as [H|H]; apply orb_true_iff; auto.
Qed.

Lemma existsb_flat_map {A B : Type} (f : B -> bool) (g : A -> list B)
    (x : A) (l : list A) :
  In x l -> existsb f (g x) = true -> existsb f (flat_map g l) = true.
Proof.
  intros Hin H. apply existsb_exists in H as (y & Hy & Hf).
  apply existsb_exists. exists y. split; [|exact Hf].
  apply in_flat_map. eauto.
Qed.

Lemma add_names_app (names1 names2 : list string) (fs : MemoryFS.t) :
  ReadZipFS.add_names (names1 ++ names2) fs
  = match ReadZipFS.add_names names1 fs with
    | (Ok _, fs1) => ReadZipFS.add_names names2 fs1
    | (Raise e, fs1) => (Raise e, fs1)
    end.
Proof.
  revert fs. induction names1 as [|s names1 IH]; intros fs; simpl.
  - reflexivity.
  - unfold bind. destruct (ReadZipFS.add_name s fs) as [[[]|e] fs1]; [apply IH | reflexivity].
Qed.

(** [makedirs] goes through when no file is on the way. *)
Lemma makedirs_from_total (path : string) (rest done : list string) (fs : MemoryFS.t) :
  (forall q, existsb (Path.path_eqb q) (Index.prefixes_from done rest) = true ->
             MemoryFS.entry fs q <> Some false) ->
  exists fs', MemoryFS.makedirs_from path done rest fs = (Ok tt, fs').
Proof.
  revert done fs. induction rest as [|c rest IH]; intros done fs H; simpl.
  - unfold ret. eauto.
  - assert (Hrest : forall fs0,
             (forall q, MemoryFS.entry fs0 q = Some false -> MemoryFS.entry fs q = Some false) ->
             exists fs', MemoryFS.makedirs_from path (done ++ [c]) rest fs0 = (Ok tt, fs')).
    { intros fs0 Hback. apply IH. intros q Hq Hf.
      apply (H q); [simpl; rewrite Hq; apply orb_true_r | auto]. }
    destruct (MemoryFS.entry fs (done ++ [c])) as [[|]|] eqn:He.
    + apply Hrest; auto.
    + exfalso. apply (H (done ++ [c])); [simpl; rewrite path_eqb_refl; reflexivity | exact He].
    + apply Hrest. intros q. rewrite (entry_snoc _ _ _ _ (snoc_not_nil done c)).
      destruct (MemoryFS.entry fs q); [auto|].
      destruct (Path.path_eqb q (done ++ [c])); discriminate.
Qed.

Lemma makedirs_from_children (path : string) (dpath rest done : list string)
    (fs fs' : MemoryFS.t) :
  (forall q, existsb (Path.path_eqb q) (Index.prefixes_from done rest) = true ->
             MemoryFS.is_child_of dpath (q, true) = false) ->
  MemoryFS.makedirs_from path done rest fs = (Ok tt, fs') ->
  filter (MemoryFS.is_child_of dpath) fs' = filter (MemoryFS.is_child_of dpath) fs.
Proof.
  revert done fs. induction rest as [|c rest IH]; intros done fs Hc H; simpl in H.
  - inversion H. reflexivity.
  - assert (Hc' : forall q,
             existsb (Path.path_eqb q) (Index.prefixes_from (done ++ [c]) rest) = true ->
             MemoryFS.is_child_of dpath (q, true) = false).
    { intros q Hq. apply Hc. simpl. rewrite Hq. apply orb_true_r. }
    destruct (MemoryFS.entry fs (done ++ [c])) as [[|]|]; try discriminate.
    + apply (IH _ _ Hc' H).
    + rewrite (IH _ _ Hc' H), filter_app. simpl.
      rewrite (Hc (done ++ [c])); [apply app_nil_r|].
      simpl. rewrite path_eqb_refl. reflexivity.
Qed.

(** Making the directory [dpath] in a tree gives that tree with the
    directory. *)
Lemma makedirs_with_directory (path : string) (dpath : list string)
    (fs fs' : MemoryFS.t) :
  MemoryFS.makedirs_from path [] dpath fs = (Ok tt, fs') ->
  Index.with_directory dpath fs fs'.
Proof.
  intros H. split.
  - apply (makedirs_from_entry _ _ _ _ _ H).
  - symmetry. apply (makedirs_from_children path dpath dpath [] fs fs'); [|exact H].
    intros q Hq. apply prefix_not_child, Hq.
Qed.

(** Adding the same node to a tree and to the tree with the directory. *)
Lemma with_directory_snoc (dpath p : list string) (b : bool) (fs fs' : MemoryFS.t) :
  p <> [] ->
  MemoryFS.entry fs' p = None ->
  Index.with_directory dpath fs fs' ->
  Index.with_directory dpath (fs ++ [(p, b)]) (fs' ++ [(p, b)]).
Proof.
  intros Hne Hnone [He Hc]. split.
  - intros q. rewrite !(entry_snoc _ _ _ _ Hne), (He q).
    destruct (MemoryFS.entry fs q); [reflexivity|].
    destruct (existsb _ _) eqn:Hq;
      destruct (Path.path_eqb q p) eqn:Heq; try reflexivity.
    apply path_eqb_eq in Heq; subst q.
    rewrite (He p) in Hnone. destruct (MemoryFS.entry fs p); [discriminate|].
    rewrite Hq in Hnone. discriminate.
  - rewrite !filter_app, Hc. reflexivity.
Qed.

(** Adding to the tree a directory that the tree with the directory
    already has. *)
Lemma with_directory_catch_up (dpath p : list string) (fs fs' : MemoryFS.t) :
  p <> [] ->
  MemoryFS.entry fs p = None ->
  MemoryFS.entry fs' p = Some true ->
  Index.with_directory dpath fs fs' ->
  Index.with_directory dpath (fs ++ [(p, true)]) fs'.
Proof.
  intros Hne Hnone Hdir [He Hc].
  assert (Hp : existsb (Path.path_eqb p) (Index.prefixes_from [] dpath) = true).
  { rewrite (He p), Hnone in Hdir. destruct (existsb _ _); [reflexivity | discriminate]. }
  split.
  - intros q. rewrite (entry_snoc _ _ _ _ Hne), (He q).
    destruct (MemoryFS.entry fs q); [reflexivity|].
    destruct (Path.path_eqb q p) eqn:Heq; [|reflexivity].
    apply path_eqb_eq in Heq; subst q. rewrite Hp. reflexivity.
  - rewrite filter_app. simpl. rewrite (prefix_not_child _ _ true Hp), app_nil_r.
    exact Hc.
Qed.

Lemma makedirs_from_with_directory (path : string) (dpath rest done : list string)
    (fsA fsB fsA' : MemoryFS.t) :
  Index.with_directory dpath fsA fsB ->
  MemoryFS.makedirs_from path done rest fsA = (Ok tt, fsA') ->
  exists fsB',
    MemoryFS.makedirs_from path done rest fsB = (Ok tt, fsB')
    /\ Index.with_directory dpath fsA' fsB'.
Proof.
  revert done fsA fsB. induction rest as [|c rest IH]; intros done fsA fsB Hw H; simpl in *.
  - inversion H; subst. unfold ret. eauto.
  - pose proof (proj1 Hw (done ++ [c])) as He.
    destruct (MemoryFS.entry fsA (done ++ [c])) as [[|]|] eqn:HA; try discriminate.
    + rewrite He. apply (IH _ _ _ Hw H).
    + destruct (MemoryFS.entry fsB (done ++ [c])) as [[|]|] eqn:HB.
      * apply (IH _ _ _ (with_directory_catch_up _ _ _ _ (snoc_not_nil done c) HA HB Hw) H).
      * destruct (existsb _ _); discriminate.
      * apply (IH _ _ _ (with_directory_snoc _ _ true _ _ (snoc_not_nil done c) HB Hw) H).
Qed.

(** One turn of the loop on a tree and on the tree with the directory,
    when the turn leaves no file where the directory goes. *)
Lemma add_name_with_directory (zip_name : string) (dpath : list string)
    (fsA fsB fsA' : MemoryFS.t) :
  Index.with_directory dpath fsA fsB ->
  ReadZipFS.add_name zip_name fsA = (Ok tt, fsA') ->
  (forall q, existsb (Path.path_eqb q) (Index.prefixes_from [] dpath) = true ->
             MemoryFS.entry fsA' q <> Some false) ->
  exists fsB',
    ReadZipFS.add_name zip_name fsB = (Ok tt, fsB')
    /\ Index.with_directory dpath fsA' fsB'.
Proof.
  intros Hw. unfold ReadZipFS.add_name.
  destruct (Path.endswith_slash zip_name).
  - unfold MemoryFS.makedirs, bind, lift.
    destruct (Path.parts zip_name) as [p|e]; [|discriminate].
    intros H _. apply (makedirs_from_with_directory _ _ _ _ _ _ _ Hw H).
  - unfold MemoryFS.makedirs, MemoryFS.create, bind, lift, ret.
    destruct (Path.parts (Path.dirname zip_name)) as [dp|e]; [|discriminate].
    destruct (MemoryFS.makedirs_from _ _ _ fsA) as [[[]|e] fsA1] eqn:Hm; [|discriminate].
    destruct (makedirs_from_with_directory _ _ _ _ _ _ _ Hw Hm) as (fsB1 & -> & Hw1).
    destruct (Path.parts zip_name) as [p|e]; [|discriminate].
    pose proof (proj1 Hw1 p) as He.
    destruct (MemoryFS.entry fsA1 p) as [b|] eqn:HA.
    + intros H _. inversion H; subst fsA'. rewrite He. eauto.
    + assert (Hne : p <> []) by (intros ->; discriminate).
      pose proof (proj1 Hw1 (removelast p)) as Hparent.
      destruct (MemoryFS.entry fsA1 (removelast p)) as [[|]|]; try discriminate.
      intros H Hfile. inversion H; subst fsA'.
      destruct (existsb (Path.path_eqb p) (Index.prefixes_from [] dpath)) eqn:Hp.
      * exfalso. apply (Hfile p Hp).
        rewrite (entry_snoc _ _ _ _ Hne), HA, path_eqb_refl. reflexivity.
      * rewrite He, Hparent. eexists. split; [reflexivity|].
        apply with_directory_snoc; assumption.
Qed.

Lemma add_names_with_directory (names : list string) (dpath : list string)
    (fsA fsB d : MemoryFS.t) :
  Index.with_directory dpath fsA fsB ->
  ReadZipFS.add_names names fsA = (Ok tt, d) ->
  (forall q, existsb (Path.path_eqb q) (Index.prefixes_from [] dpath) = true ->
             MemoryFS.entry d q <> Some false) ->
  exists d',
    ReadZipFS.add_names names fsB = (Ok tt, d')
    /\ Index.with_directory dpath d d'.
Proof.
  revert fsA fsB. induction names as [|s names IH]; intros fsA fsB Hw H Hd; simpl in *.
  - inversion H; subst. unfold ret. eauto.
  - unfold bind in *.
    destruct (ReadZipFS.add_name s fsA) as [[[]|e] fsA1] eqn:Hs; [|discriminate].
    destruct (add_name_with_directory _ _ _ _ _ Hw Hs) as (fsB1 & -> & Hw1).
    + intros q Hq Hf. apply (Hd q Hq).
      rewrite (add_names_entry _ _ _ H q), Hf. reflexivity.
    + apply (IH _ _ Hw1 H Hd).
Qed.

(** An archive whose index builds, and the archive with one more
    record, named as a directory that a file of the archive lies
    under: the second index builds too, has the same nodes, and lists
    that directory in the same order. *)
Lemma index_with_stored_directory (names1 names2 : list string)
    (dir_name file_name : string) (dpath fdir : list string) (d : MemoryFS.t) :
  Path.endswith_slash dir_name = true ->
  Path.parts dir_name = Ok dpath ->
  In file_name (names1 ++ names2) ->
  Path.endswith_slash file_name = false ->
  Path.parts (Path.dirname file_name) = Ok fdir ->
  Path.is_prefix dpath fdir = true ->
  ReadZipFS.add_names (names1 ++ names2) MemoryFS.empty = (Ok tt, d) ->
  exists d',
    ReadZipFS.add_names (names1 ++ dir_name :: names2) MemoryFS.empty = (Ok tt, d')
    /\ Index.same_nodes d d'
    /\ MemoryFS.children d dpath = MemoryFS.children d' dpath.
Proof.
  intros Hslash Hdpath Hin Hfile Hfdir Hprefix H.
  apply parts_resolve in Hfdir.
  assert (Hall : forall q,
            existsb (Path.path_eqb q) (Index.prefixes_from [] dpath) = true ->
            MemoryFS.entry d q = Some true).
  { intros q Hq. rewrite (add_names_entry _ _ _ H q).
    destruct (MemoryFS.entry MemoryFS.empty q) as [b|] eqn:He.
    - destruct q; [rewrite <- He; reflexivity | discriminate].
    - unfold Index.node.
      rewrite (existsb_flat_map _ Index.dirs_of file_name); [reflexivity | exact Hin |].
      unfold Index.dirs_of. rewrite Hfile, Hfdir.
      apply (prefixes_from_incl _ _ _ _ Hprefix Hq). }
  rewrite add_names_app in H. rewrite add_names_app. simpl. unfold bind.
  destruct (ReadZipFS.add_names names1 MemoryFS.empty) as [[[]|e] fs1]; [|discriminate].
  unfold ReadZipFS.add_name. rewrite Hslash.
  unfold MemoryFS.makedirs, bind, lift. rewrite Hdpath.
  destruct (makedirs_from_total dir_name dpath [] fs1) as (fs1' & Hm).
  { intros q Hq Hf. pose proof (Hall q Hq) as Hd.
    rewrite (add_names_entry _ _ _ H q), Hf in Hd. discriminate. }
  rewrite Hm.
  destruct (add_names_with_directory names2 dpath fs1 fs1' d
              (makedirs_with_directory _ _ _ _ Hm) H) as (d' & Hd' & He & Hc).
  { intros q Hq. rewrite (Hall q Hq). discriminate. }
  exists d'. split; [exact Hd'|]. split.
  - intros q. rewrite (He q).
    destruct (MemoryFS.entry d q) eqn:Hq; [reflexivity|].
    destruct (existsb _ _) eqn:Hp; [|reflexivity].
    rewrite (Hall q Hp) in Hq. discriminate.
  - unfold MemoryFS.children. rewrite Hc. reflexivity.
Qed.

Lemma directory_built (file encoding : string) (table : list ZipFile.ZipInfo)
    (d : MemoryFS.t) :
  ReadZipFS.add_names (map ZipFile.filename table) MemoryFS.empty = (Ok tt, d) ->
  ReadZipFS._directory (ReadZipFS.__init__ file encoding table)
  = (Ok d, ReadZipFS.set_directory_fs d (ReadZipFS.__init__ file encoding table)).
Proof.
  intros H.
  unfold ReadZipFS._directory, ReadZipFS.__init__, bind, ReadZipFS.check,
    ReadZipFS.isclosed, ZipFile.namelist. simpl.
  rewrite H. reflexivity.
Qed.

(** [getinfo] without namespaces answers from the index alone. *)
Lemma getinfo_basic (self self' : ReadZipFS.t) (d : MemoryFS.t) (path : string) :
  ReadZipFS._directory self = (Ok d, self') ->
  ReadZipFS._closed self = false ->
  fst (ReadZipFS.getinfo path [] self)
  = match Path.normpath path with
    | Raise e => Raise e
    | Ok np =>
        if String.eqb (Path.abspath np) "/" then
          Ok {| basic := (""%string, true); details := None; zip := None; access := None |}
        else
          match MemoryFS.getinfo d (Path.abspath np) with
          | Ok b => Ok {| basic := b; details := None; zip := None; access := None |}
          | Raise e => Raise e
          end
    end.
Proof.
  intros Hd Hopen.
  unfold ReadZipFS.getinfo, ReadZipFS.validatepath, bind, lift, ret.
  rewrite (check_open self Hopen).
  destruct (Path.normpath path) as [np|e]; [|reflexivity].
  destruct (String.eqb (Path.abspath np) "/"); [reflexivity|].
  rewrite Hd. destruct (MemoryFS.getinfo d (Path.abspath np)); reflexivity.
Qed.

Lemma listdir_index (self self' : ReadZipFS.t) (d : MemoryFS.t) (path : string) :
  ReadZipFS._directory self = (Ok d, self') ->
  ReadZipFS._closed self = false ->
  fst (ReadZipFS.listdir path self) = MemoryFS.listdir d path.
Proof.
  intros Hd Hopen. unfold ReadZipFS.listdir, bind, lift.
  rewrite (check_open self Hopen), Hd. reflexivity.
Qed.

(** C5: the archive whose only entry is ["x/y.txt"] has [/x] as a
    directory that lists [["y.txt"]].  In general, take an archive
    whose index builds and a directory that one of its files lies
    under, and store a record named as that directory anywhere in the
    table: [getinfo] gives the same name and directory flag for every
    path as before, and [listdir] of the directory gives the same
    names in the same order. *)
Theorem C5_implied_directory :
  (fst (ReadZipFS.getinfo "/x" [] Examples.implied)
   = Ok {| basic := ("x"%string, true); details := None; zip := None; access := None |}
   /\ fst (ReadZipFS.listdir "/x" Examples.implied) = Ok ["y.txt"%string])
  /\ forall (file encoding : string) (table1 table2 : list ZipFile.ZipInfo)
       (dir_record : ZipFile.ZipInfo) (file_name : string)
       (dpath fdir : list string) (d : MemoryFS.t) (self : ReadZipFS.t),
       Path.endswith_slash (ZipFile.filename dir_record) = true ->
       Path.parts (ZipFile.filename dir_record) = Ok dpath ->
       In file_name (map ZipFile.filename (table1 ++ table2)) ->
       Path.endswith_slash file_name = false ->
       Path.parts (Path.dirname file_name) = Ok fdir ->
       Path.is_prefix dpath fdir = true ->
       ReadZipFS._directory (ReadZipFS.__init__ file encoding (table1 ++ table2))
       = (Ok d, self) ->
       (forall path,
          fst (ReadZipFS.getinfo path []
                 (ReadZipFS.__init__ file encoding (table1 ++ dir_record :: table2)))
          = fst (ReadZipFS.getinfo path []
                   (ReadZipFS.__init__ file encoding (table1 ++ table2))))
       /\ (forall path,
             Path.parts path = Ok dpath ->
             fst (ReadZipFS.listdir path
                    (ReadZipFS.__init__ file encoding (table1 ++ dir_record :: table2)))
             = fst (ReadZipFS.listdir path
                      (ReadZipFS.__init__ file encoding (table1 ++ table2)))).
Proof.
  split; [split; reflexivity|].
  intros file encoding table1 table2 dir_record file_name dpath fdir d self
    Hslash Hdpath Hin Hfile Hfdir Hprefix Hd.
  pose proof (directory_fresh _ _ _ _ _ Hd) as Hbuild.
  rewrite map_app in Hbuild, Hin.
  destruct (index_with_stored_directory _ _ _ _ _ _ _
              Hslash Hdpath Hin Hfile Hfdir Hprefix Hbuild)
    as (d' & Hbuild' & Hsame & Hchildren).
  assert (Hd' : ReadZipFS._directory
                  (ReadZipFS.__init__ file encoding (table1 ++ dir_record :: table2))
                = (Ok d', ReadZipFS.set_directory_fs d'
                            (ReadZipFS.__init__ file encoding
                               (table1 ++ dir_record :: table2)))).
  { apply directory_built. rewrite map_app. exact Hbuild'. }
  split; intros path.
  - rewrite (getinfo_basic _ _ _ path Hd' eq_refl),
      (getinfo_basic _ _ _ path Hd eq_refl).
    destruct (Path.normpath path) as [np|e]; [|reflexivity].
    destruct (String.eqb (Path.abspath np) "/"); [reflexivity|].
    unfold MemoryFS.getinfo. destruct (Path.parts (Path.abspath np)); [|reflexivity].
    rewrite (Hsame a). reflexivity.
  - intros Hpath.
    rewrite (listdir_index _ _ _ path Hd' eq_refl),
      (listdir_index _ _ _ path Hd eq_refl).
    unfold MemoryFS.listdir. rewrite Hpath, (Hsame dpath), Hchildren. reflexivity.
Qed.

Lemma C5_witness :
  fst (ReadZipFS.getinfo "/x" [] Examples.explicit)
  = fst (ReadZipFS.getinfo "/x" [] Examples.implied)
  /\ fst (ReadZipFS.listdir "/x" Examples.explicit)
     = fst (ReadZipFS.listdir "/x" Examples.implied).
Proof.
  destruct (proj2 C5_implied_directory "implied.zip" "utf-8"
              [] [Examples.record "x/y.txt" Examples.hi]
              (Examples.record "x/" []) "x/y.txt" ["x"] ["x"]
              [(["x"], true); (["x"; "y.txt"], false)]
              (snd (ReadZipFS._directory Examples.implied))
              eq_refl eq_refl (or_introl eq_refl) eq_refl eq_refl eq_refl eq_refl)
    as [Hinfo Hlist].
  split.
  - exact (Hinfo "/x"%string).
  - exact (Hlist "/x"%string eq_refl).
Defined.

(** * Further properties *)

(** ** fs.iotools.line_iterator *)

(** The run of [test_line_iterator]. *)
Lemma test_line_iterator :
  fst (IOTools.line_iterator
         (IOTools.bytes_of_string "Hello
World

foo") None)
  = map IOTools.bytes_of_string ["Hello
"; "World
"; "
"; "foo"]%string
  /\ fst (IOTools.line_iterator
            (IOTools.bytes_of_string "Hello
World

foo") (Some 10%Z))
     = map IOTools.bytes_of_string ["Hello
"; "Worl"]%string.
Proof. split; reflexivity. Qed.

Lemma join_snoc (line : list (list Byte.byte)) (byte : list Byte.byte) :
  IOTools.join (line ++ [byte]) = IOTools.join line ++ byte.
Proof.
  unfold IOTools.join. rewrite concat_app. simpl. rewrite app_nil_r. reflexivity.
Qed.

Lemma in_newline_one (b : Byte.byte) :
  IOTools.in_newline [b] = true <-> b = IOTools.newline.
Proof.
  simpl. split; [apply Byte.byte_dec_bl | apply Byte.byte_dec_lb].
Qed.

Lemma unsized_loop_concat (f : list Byte.byte) (line : list (list Byte.byte)) :
  List.concat (fst (IOTools.unsized_loop f line)) = IOTools.join line ++ f
  /\ snd (IOTools.unsized_loop f line) = [].
Proof.
  revert line. induction f as [|b f IH]; intros line.
  - simpl. rewrite join_snoc, !app_nil_r. auto.
  - cbn [IOTools.unsized_loop].
    destruct (IOTools.in_newline [b]).
    + destruct (IOTools.unsized_loop f []) as [chunks rest] eqn:Hl.
      destruct (IH []) as [Hc Hr]. rewrite Hl in Hc, Hr. simpl in *.
      rewrite join_snoc, Hc, <- app_assoc. auto.
    + destruct (IH (line ++ [[b]])) as [Hc Hr].
      rewrite Hc, Hr, join_snoc, <- app_assoc. auto.
Qed.

(** X1: without a size, or with a negative one, the chunks that
    [line_iterator] yields, put end to end, are the bytes that were
    left in the file, and the file is read to its end. *)
Theorem line_iterator_unsized_concat (f : list Byte.byte) (size : option Z) :
  (size = None \/ exists n, size = Some n /\ (n < 0)%Z) ->
  List.concat (fst (IOTools.line_iterator f size)) = f
  /\ snd (IOTools.line_iterator f size) = [].
Proof.
  intros Hsize.
  assert (H : IOTools.line_iterator f size = IOTools.unsized_loop f []).
  { destruct Hsize as [->|(n & -> & Hn)]; [reflexivity|].
    unfold IOTools.line_iterator. apply Z.ltb_lt in Hn. rewrite Hn. reflexivity. }
  rewrite H. apply (unsized_loop_concat f []).
Qed.

Lemma line_iterator_unsized_concat_witness :
  List.concat (fst (IOTools.line_iterator (IOTools.bytes_of_string "ab
c") (Some (-1)%Z)))
  = IOTools.bytes_of_string "ab
c".
Proof.
  apply (line_iterator_unsized_concat (IOTools.bytes_of_string "ab
c") (Some (-1)%Z)).
  right. exists (-1)%Z. split; [reflexivity | lia].
Defined.

Lemma unsized_loop_length (f : list Byte.byte) (line : list (list Byte.byte)) :
  List.length (fst (IOTools.unsized_loop f line)) = S (IOTools.count_newlines f).
Proof.
  revert line. unfold IOTools.count_newlines.
  induction f as [|b f IH]; intros line; [reflexivity|].
  cbn [IOTools.unsized_loop filter]. change (IOTools.in_newline [b])
    with (Byte.eqb b IOTools.newline).
  destruct (Byte.eqb b IOTools.newline).
  - specialize (IH []). destruct (IOTools.unsized_loop f []) as [chunks rest].
    simpl in *. rewrite IH. reflexivity.
  - apply IH.
Qed.

(** X2: without a size, [line_iterator] yields one chunk more than the
    file has newline bytes: there is always a last chunk after the last
    newline, and it is empty when the file is empty or ends with a
    newline. *)
Theorem line_iterator_unsized_count (f : list Byte.byte) :
  List.length (fst (IOTools.line_iterator f None)) = S (IOTools.count_newlines f)
  /\ (f = [] \/ (exists f', f = f' ++ [IOTools.newline]) ->
      last (fst (IOTools.line_iterator f None)) [IOTools.newline] = []).
Proof.
  split; [apply unsized_loop_length|].
  intros Hend. unfold IOTools.line_iterator.
  assert (Hgen : forall g line,
            g = [] /\ IOTools.join line = [] \/ (exists g', g = g' ++ [IOTools.newline]) ->
            last (fst (IOTools.unsized_loop g line)) [IOTools.newline] = []).
  { induction g as [|b g IH]; intros line Hg.
    - destruct Hg as [[_ Hline]|[g' Hg']].
      + change (IOTools.join (line ++ [[]]) = []).
        rewrite join_snoc, Hline. reflexivity.
      + destruct g'; discriminate.
    - destruct Hg as [[Hg _]|[g' Hg']]; [discriminate|].
      cbn [IOTools.unsized_loop].
      destruct g' as [|b' g'].
      + inversion Hg'; subst. reflexivity.
      + inversion Hg'; subst b' g.
        destruct (IOTools.in_newline [b]).
        * specialize (IH [] (or_intror (ex_intro _ g' eq_refl))).
          destruct (IOTools.unsized_loop (g' ++ [IOTools.newline]) []) as [chunks rest] eqn:Hl.
          simpl in *.
          destruct chunks as [|c chunks]; [|exact IH].
          pose proof (unsized_loop_length (g' ++ [IOTools.newline]) []) as Hlen.
          rewrite Hl in Hlen. discriminate.
        * apply IH. right. eauto. }
  apply Hgen. destruct Hend as [->|Hend]; [left; auto | right; exact Hend].
Qed.

Lemma line_iterator_unsized_count_witness :
  last (fst (IOTools.line_iterator [Byte.x61; IOTools.newline] None)) [IOTools.newline]
  = [].
Proof.
  apply (line_iterator_unsized_count [Byte.x61; IOTools.newline]).
  right. exists [Byte.x61]. reflexivity.
Defined.

Lemma unsized_loop_lines (f : list Byte.byte) (line : list (list Byte.byte)) :
  ~ In IOTools.newline (IOTools.join line) ->
  exists lines tail,
    fst (IOTools.unsized_loop f line) = lines ++ [tail]
    /\ Forall IOTools.full_line lines
    /\ ~ In IOTools.newline tail.
Proof.
  revert line. induction f as [|b f IH]; intros line Hline.
  - exists [], (IOTools.join (line ++ [[]])). repeat split; [constructor|].
    rewrite join_snoc, app_nil_r. exact Hline.
  - cbn [IOTools.unsized_loop].
    destruct (IOTools.in_newline [b]) eqn:Hb.
    + apply in_newline_one in Hb; subst b.
      destruct (IH [] (fun H => H)) as (lines & tail & Hl & Hfull & Htail).
      destruct (IOTools.unsized_loop f []) as [chunks rest]. simpl in Hl; subst chunks.
      exists (IOTools.join (line ++ [[IOTools.newline]]) :: lines), tail.
      repeat split; [|exact Htail].
      constructor; [|exact Hfull].
      exists (IOTools.join line). split; [apply join_snoc | exact Hline].
    + apply IH. rewrite join_snoc. intros Hin.
      apply in_app_or in Hin as [Hin|[Heq|[]]]; [auto|].
      subst b. simpl in Hb. rewrite (Byte.byte_dec_lb eq_refl) in Hb. discriminate.
Qed.

(** X3: without a size, every chunk that [line_iterator] yields but the
    last is one line of the file with its newline, and the last chunk
    has no newline in it. *)
Theorem line_iterator_unsized_lines (f : list Byte.byte) :
  exists lines tail,
    fst (IOTools.line_iterator f None) = lines ++ [tail]
    /\ Forall IOTools.full_line lines
    /\ ~ In IOTools.newline tail.
Proof.
  apply (unsized_loop_lines f []). intros [].
Qed.

Lemma sized_loop_concat (f : list Byte.byte) (size : Z) (line : list (list Byte.byte)) :
  (0 <= size)%Z ->
  (size = 0%Z -> fst (IOTools.sized_loop f size line) = []
                 /\ snd (IOTools.sized_loop f size line) = f)
  /\ (size <> 0%Z ->
      List.concat (fst (IOTools.sized_loop f size line))
      = IOTools.join line ++ firstn (Z.to_nat size) f
      /\ snd (IOTools.sized_loop f size line) = skipn (Z.to_nat size) f).
Proof.
  revert size line. induction f as [|b f IH]; intros size line Hsize.
  - split; intros Hz.
    + subst size. auto.
    + apply Z.eqb_neq in Hz. simpl. rewrite Hz. simpl.
      rewrite join_snoc, firstn_nil, skipn_nil, !app_nil_r. auto.
  - split; intros Hz.
    + subst size. auto.
    + assert (Hnat : Z.to_nat size = S (Z.to_nat (size - 1))) by lia.
      apply Z.eqb_neq in Hz. cbn [IOTools.sized_loop]. rewrite Hz, Hnat.
      destruct (IH (size - 1)%Z [] ltac:(lia)) as [IH0 IH1].
      destruct (IOTools.in_newline [b] || (size - 1 =? 0)%Z) eqn:Hc.
      * destruct (Z.eq_dec (size - 1) 0) as [Hs|Hs].
        -- destruct (IH0 Hs) as [Hf Hr].
           destruct (IOTools.sized_loop f (size - 1) []) as [chunks rest].
           simpl in *. subst chunks rest. rewrite Hs. simpl.
           rewrite join_snoc, app_nil_r. auto.
        -- destruct (IH1 Hs) as [Hf Hr].
           destruct (IOTools.sized_loop f (size - 1) []) as [chunks rest].
           simpl in *. rewrite Hf, Hr, join_snoc, <- app_assoc. auto.
      * apply orb_false_iff in Hc as [_ Hs]. apply Z.eqb_neq in Hs.
        destruct (IH (size - 1)%Z (line ++ [[b]]) ltac:(lia)) as [_ IH2].
        destruct (IH2 Hs) as [Hf Hr].
        rewrite Hf, Hr, join_snoc, <- app_assoc. auto.
Qed.

(** X4: with a size that is not negative, the chunks that
    [line_iterator] yields, put end to end, are the first [size] bytes
    that were left in the file (all of them when there are fewer), and
    the file is left after those bytes. *)
Theorem line_iterator_sized_concat (f : list Byte.byte) (size : Z) :
  (0 <= size)%Z ->
  List.concat (fst (IOTools.line_iterator f (Some size))) = firstn (Z.to_nat size) f
  /\ snd (IOTools.line_iterator f (Some size)) = skipn (Z.to_nat size) f.
Proof.
  intros Hsize. unfold IOTools.line_iterator.
  assert (Hlt : (size <? 0)%Z = false) by (apply Z.ltb_ge; exact Hsize).
  rewrite Hlt.
  destruct (sized_loop_concat f size [] Hsize) as [H0 H1].
  destruct (Z.eq_dec size 0) as [Hz|Hz].
  - destruct (H0 Hz) as [Hf Hr]. rewrite Hf, Hr, Hz. auto.
  - apply (H1 Hz).
Qed.

Lemma line_iterator_sized_concat_witness :
  List.concat (fst (IOTools.line_iterator (IOTools.bytes_of_string "ab
cd") (Some 4%Z)))
  = IOTools.bytes_of_string "ab
c"
  /\ snd (IOTools.line_iterator (IOTools.bytes_of_string "ab
cd") (Some 4%Z))
     = IOTools.bytes_of_string "d".
Proof.
  apply (line_iterator_sized_concat (IOTools.bytes_of_string "ab
cd") 4). lia.
Defined.

Lemma sized_loop_lines (f : list Byte.byte) (size : Z) (line : list (list Byte.byte)) :
  (0 <= size)%Z -> size <> 0%Z ->
  ~ In IOTools.newline (IOTools.join line) ->
  exists lines tail,
    fst (IOTools.sized_loop f size line) = lines ++ [tail]
    /\ Forall IOTools.full_line lines
    /\ (IOTools.full_line tail \/ ~ In IOTools.newline tail).
Proof.
  revert size line. induction f as [|b f IH]; intros size line Hsize Hz Hline.
  - apply Z.eqb_neq in Hz. simpl. rewrite Hz.
    exists [], (IOTools.join (line ++ [[]])). repeat split; [constructor|].
    right. rewrite join_snoc, app_nil_r. exact Hline.
  - pose proof Hz as Hz'. apply Z.eqb_neq in Hz'.
    cbn [IOTools.sized_loop]. rewrite Hz'.
    assert (Hchunk : IOTools.full_line (IOTools.join (line ++ [[b]]))
                     \/ ~ In IOTools.newline (IOTools.join (line ++ [[b]]))).
    { rewrite join_snoc. destruct (Byte.byte_eq_dec b IOTools.newline) as [->|Hb].
      - left. exists (IOTools.join line). auto.
      - right. intros Hin. apply in_app_or in Hin as [Hin|[Heq|[]]]; auto. }
    destruct (IOTools.in_newline [b] || (size - 1 =? 0)%Z) eqn:Hc.
    + destruct (Z.eq_dec (size - 1) 0) as [Hs|Hs].
      * rewrite Hs.
        exists [], (IOTools.join (line ++ [[b]])).
        destruct f; (repeat split; [constructor | exact Hchunk]).
      * apply orb_true_iff in Hc as [Hb|Hs']; [|apply Z.eqb_eq in Hs'; contradiction].
        apply in_newline_one in Hb; subst b.
        destruct (IH (size - 1)%Z [] ltac:(lia) Hs (fun H => H))
          as (lines & tail & Hl & Hfull & Htail).
        destruct (IOTools.sized_loop f (size - 1) []) as [chunks rest].
        simpl in Hl; subst chunks.
        exists (IOTools.join (line ++ [[IOTools.newline]]) :: lines), tail.
        repeat split; [|exact Htail].
        constructor; [|exact Hfull].
        exists (IOTools.join line). split; [apply join_snoc | exact Hline].
    + apply orb_false_iff in Hc as [Hb Hs]. apply Z.eqb_neq in Hs.
      apply (IH (size - 1)%Z _ ltac:(lia) Hs).
      destruct Hchunk as [(body & Heq & _)|Hno]; [|exact Hno].
      rewrite join_snoc in Heq. apply app_inj_tail in Heq as [_ ->].
      simpl in Hb. rewrite (Byte.byte_dec_lb eq_refl) in Hb. discriminate.
Qed.

(** X5: with a size of zero [line_iterator] yields nothing and reads
    nothing.  With a positive size it yields at least one chunk; every
    chunk but the last is one line of the file with its newline, and
    the last chunk has no newline except, possibly, as its last byte. *)
Theorem line_iterator_sized_lines (f : list Byte.byte) (size : Z) :
  IOTools.line_iterator f (Some 0%Z) = ([], f)
  /\ ((0 < size)%Z ->
      exists lines tail,
        fst (IOTools.line_iterator f (Some size)) = lines ++ [tail]
        /\ Forall IOTools.full_line lines
        /\ (IOTools.full_line tail \/ ~ In IOTools.newline tail)).
Proof.
  split; [destruct f; reflexivity|].
  intros Hsize. unfold IOTools.line_iterator.
  assert (Hlt : (size <? 0)%Z = false) by (apply Z.ltb_ge; lia).
  rewrite Hlt. apply sized_loop_lines; [lia | lia | intros []].
Qed.

Lemma line_iterator_sized_lines_witness :
  exists lines tail,
    fst (IOTools.line_iterator (IOTools.bytes_of_string "ab
cd") (Some 4%Z)) = lines ++ [tail]
    /\ Forall IOTools.full_line lines
    /\ (IOTools.full_line tail \/ ~ In IOTools.newline tail).
Proof.
  apply (line_iterator_sized_lines (IOTools.bytes_of_string "ab
cd") 4). lia.
Defined.

(** ** fs.iotools.make_stream *)

(** X6: [make_stream] hands back the binary file as it is exactly when
    the mode has [b] and either the buffering is negative or the mode
    has none of [r], [w], [a] and [+]. *)
Theorem make_stream_raw {RawIO : Type} (DEFAULT_BUFFER_SIZE : Z) (name : string)
    (bin_file : RawIO) (mode : string) (buffering : Z)
    (encoding errors newline : option string) (line_buffering : bool) :
  IOTools.make_stream DEFAULT_BUFFER_SIZE name bin_file mode buffering
    encoding errors newline line_buffering = IOTools.Raw bin_file
  <-> contains "b" mode = true
      /\ ((buffering < 0)%Z
          \/ contains "r" mode || contains "w" mode || contains "a" mode
             || contains "+" mode = false).
Proof.
  unfold IOTools.make_stream.
  destruct (Z.geb_spec buffering 0) as [Hge|Hlt];
    destruct (contains "b" mode), (contains "r" mode), (contains "w" mode),
      (contains "a" mode), (contains "+" mode);
    simpl; split; intros Hraw; try discriminate; try reflexivity;
    try (split; [reflexivity|]; first [right; reflexivity | left; lia]);
    try (destruct Hraw as [Hb [Hneg|Hmode]]; first [discriminate | lia]).
Qed.

(** X7: when [make_stream] puts a buffer around the binary file, the
    buffering asked for was not negative, the mode has one of [r], [w],
    [a] and [+], and the buffer has the size asked for, or the default
    size when 0 was asked for; a text wrapper is put on top exactly
    when the mode has no [b], with the encoding asked for or UTF-8. *)
Theorem make_stream_wrappers {RawIO : Type} (DEFAULT_BUFFER_SIZE : Z) (name : string)
    (bin_file : RawIO) (mode : string) (buffering : Z)
    (encoding errors newline : option string) (line_buffering : bool) :
  let io := IOTools.make_stream DEFAULT_BUFFER_SIZE name bin_file mode buffering
              encoding errors newline line_buffering in
  (forall n, IOTools.buffer_size_of io = Some n ->
             (0 <= buffering)%Z
             /\ contains "r" mode || contains "w" mode || contains "a" mode
                || contains "+" mode = true
             /\ n = (if (buffering =? 0)%Z then DEFAULT_BUFFER_SIZE else buffering))
  /\ (contains "b" mode = false ->
      exists buffer,
        io = IOTools.TextIOWrapper buffer (Some (IOTools.or_utf8 encoding))
               errors newline line_buffering)
  /\ (contains "b" mode = true ->
      forall buffer e er nl lb, io <> IOTools.TextIOWrapper buffer e er nl lb).
Proof.
  unfold IOTools.make_stream, IOTools.or_default.
  destruct (Z.geb_spec buffering 0) as [Hge|Hlt];
    destruct (contains "b" mode), (contains "r" mode), (contains "w" mode),
      (contains "a" mode), (contains "+" mode);
    simpl; (split; [|split]); try discriminate;
    try (intros n Hn; inversion Hn; repeat split; lia);
    try (intros _; eexists; reflexivity);
    try (intros _ buffer e er nl lb; discriminate).
Qed.

Lemma make_stream_wrappers_witness :
  IOTools.buffer_size_of
    (IOTools.make_stream 8192 "f" tt "r+" 0 None None None false) = Some 8192%Z
  /\ exists buffer,
       IOTools.make_stream 8192 "f" tt "r+" 0 None None None false
       = IOTools.TextIOWrapper buffer (Some "utf-8"%string) None None false.
Proof.
  destruct (make_stream_wrappers 8192 "f" tt "r+" 0 None None None false)
    as (Hsize & Htext & _).
  split; [reflexivity | exact (Htext eq_refl)].
Defined.

(** ** ReadZipFS: closing, the root, missing paths *)

(** X8: once [close] has run, every method of the backend that looks at
    the archive raises [FilesystemClosed] and leaves the backend as it
    is; the methods that change things raise it too, not
    [ResourceReadOnly]. *)
Theorem closed_backend_refuses (self : ReadZipFS.t) (path mode : string)
    (namespaces : list string) (info : Info) (permissions : option Permissions)
    (recreate : bool) :
  let closed := snd (ReadZipFS.close self) in
  ReadZipFS.getinfo path namespaces closed = (Raise FilesystemClosed, closed)
  /\ ReadZipFS.listdir path closed = (Raise FilesystemClosed, closed)
  /\ ReadZipFS.openbin path mode closed = (Raise FilesystemClosed, closed)
  /\ ReadZipFS.readbytes path closed = (Raise FilesystemClosed, closed)
  /\ ReadZipFS._directory closed = (Raise FilesystemClosed, closed)
  /\ ReadZipFS.setinfo path info closed = (Raise FilesystemClosed, closed)
  /\ ReadZipFS.makedir path permissions recreate closed = (Raise FilesystemClosed, closed)
  /\ ReadZipFS.remove path closed = (Raise FilesystemClosed, closed)
  /\ ReadZipFS.removedir path closed = (Raise FilesystemClosed, closed).
Proof.
  repeat split.
Qed.

Lemma parts_root_abspath (path : string) :
  Path.parts path = Ok [] ->
  exists np, Path.normpath path = Ok np /\ Path.abspath np = "/"%string.
Proof.
  intros H. unfold Path.normpath. rewrite H.
  destruct (Path.startswith_slash path); eexists; split; reflexivity.
Qed.

(** X9: on a backend that is not closed, [getinfo] of any spelling of
    the root returns the name [""] and the directory flag, the details
    namespace with the type alone when it is asked for, and never the
    access or zip namespace; it does not build the index and leaves the
    backend as it is. *)
Theorem getinfo_root (self : ReadZipFS.t) (path : string) (namespaces : list string) :
  ReadZipFS._closed self = false ->
  Path.parts path = Ok [] ->
  ReadZipFS.getinfo path namespaces self
  = (Ok {| basic := (""%string, true);
           details := if mem "details" namespaces
                      then Some {| size := None; type := directory; modified := None |}
                      else None;
           zip := None;
           access := None |}, self).
Proof.
  intros Hopen Hroot.
  destruct (parts_root_abspath path Hroot) as (np & Hn & Habs).
  unfold ReadZipFS.getinfo, ReadZipFS.validatepath, bind, lift, ret.
  rewrite (check_open self Hopen), Hn, Habs. reflexivity.
Qed.

Lemma getinfo_root_witness :
  ReadZipFS.getinfo "x/.." ["details"; "access"]%string Examples.implied
  = (Ok {| basic := (""%string, true);
           details := Some {| size := None; type := directory; modified := None |};
           zip := None;
           access := None |}, Examples.implied).
Proof.
  apply (getinfo_root Examples.implied "x/.." ["details"; "access"]%string);
    reflexivity.
Defined.

(** X10: on a backend that is not closed, [getinfo] of a path that the
    index does not have raises [ResourceNotFound] carrying the
    canonical absolute form of the path, whatever namespaces are asked
    for. *)
Theorem getinfo_missing (self self' : ReadZipFS.t) (d : MemoryFS.t)
    (path np : string) (p : list string) (namespaces : list string) :
  ReadZipFS._closed self = false ->
  ReadZipFS._directory self = (Ok d, self') ->
  Path.normpath path = Ok np ->
  Path.parts path = Ok p ->
  MemoryFS.entry d p = None ->
  ReadZipFS.getinfo path namespaces self
  = (Raise (ResourceNotFound (Path.abspath np)), self').
Proof.
  intros Hopen Hd Hn Hp Hnone.
  assert (Hroot : String.eqb (Path.abspath np) "/" = false).
  { apply String.eqb_neq. intros Habs.
    assert (Hres : Path.resolve (Path.split (Path.abspath np)) [] = Some p).
    { rewrite resolve_split_abspath, (resolve_split_normpath _ _ Hn).
      apply parts_resolve, Hp. }
    rewrite Habs in Hres. inversion Hres; subst p. discriminate. }
  unfold ReadZipFS.getinfo, ReadZipFS.validatepath, bind, lift, ret.
  rewrite (check_open self Hopen), Hn, Hroot, Hd.
  unfold MemoryFS.getinfo, Path.parts.
  rewrite resolve_split_abspath, (resolve_split_normpath _ _ Hn).
  apply parts_resolve in Hp. rewrite Hp, Hnone. reflexivity.
Qed.

Lemma getinfo_missing_witness :
  fst (ReadZipFS.getinfo "x/../nope" ["details"]%string Examples.implied)
  = Raise (ResourceNotFound "/nope").
Proof.
  rewrite (getinfo_missing Examples.implied
             (snd (ReadZipFS._directory Examples.implied))
             [(["x"], true); (["x"; "y.txt"], false)]%string
             "x/../nope" "nope" ["nope"]%string ["details"]%string);
    reflexivity.
Defined.



(** ** ReadZipFS: what the index holds *)

Lemma prefix_in_prefixes (p q done : list string) :
  Path.is_prefix q p = true -> q <> [] ->
  existsb (Path.path_eqb (done ++ q)) (Index.prefixes_from done p) = true.
Proof.
  revert q done. induction p as [|c p IH]; intros q done Hp Hq.
  - destruct q; [congruence | discriminate].
  - destruct q as [|c' q]; [congruence|]. simpl in Hp.
    apply andb_true_iff in Hp as [Hc Hp]. apply String.eqb_eq in Hc; subst c'.
    simpl. destruct q as [|c'' q].
    + rewrite path_eqb_refl. reflexivity.
    + apply orb_true_iff. right.
      replace (done ++ c :: c'' :: q) with ((done ++ [c]) ++ c'' :: q)
        by (rewrite <- app_assoc; reflexivity).
      apply IH; [exact Hp | discriminate].
Qed.

Lemma prefixes_are_prefixes (p x done : list string) :
  existsb (Path.path_eqb x) (Index.prefixes_from done p) = true ->
  exists q, x = done ++ q /\ q <> [] /\ Path.is_prefix q p = true.
Proof.
  revert done. induction p as [|c p IH]; intros done H; simpl in H.
  - discriminate.
  - apply orb_true_iff in H as [H|H].
    + apply path_eqb_eq in H. exists [c]. repeat split; [exact H | discriminate |].
      simpl. rewrite String.eqb_refl. reflexivity.
    + destruct (IH _ H) as (q & Hx & Hq & Hp).
      exists (c :: q). repeat split; [|discriminate|].
      * rewrite Hx, <- app_assoc. reflexivity.
      * simpl. rewrite String.eqb_refl. exact Hp.
Qed.

(** A turn of the loop that does not raise could normalise the name, and
    the name of its directory when the name is a file's. *)
Lemma add_name_parts (zip_name : string) (fs fs' : MemoryFS.t) :
  ReadZipFS.add_name zip_name fs = (Ok tt, fs') ->
  (exists p, Path.parts zip_name = Ok p)
  /\ (Path.endswith_slash zip_name = false ->
      exists dp, Path.parts (Path.dirname zip_name) = Ok dp).
Proof.
  unfold ReadZipFS.add_name.
  destruct (Path.endswith_slash zip_name).
  - unfold MemoryFS.makedirs, bind, lift.
    destruct (Path.parts zip_name) as [p|e]; [|discriminate].
    intros _. split; [eauto | discriminate].
  - unfold MemoryFS.makedirs, MemoryFS.create, bind, lift.
    destruct (Path.parts (Path.dirname zip_name)) as [dp|e]; [|discriminate].
    destruct (MemoryFS.makedirs_from _ _ _ fs) as [[[]|e] fs1]; [|discriminate].
    destruct (Path.parts zip_name) as [p|e]; [|discriminate].
    intros _. split; eauto.
Qed.

Lemma add_names_parts (names : list string) (zip_name : string) (fs fs' : MemoryFS.t) :
  ReadZipFS.add_names names fs = (Ok tt, fs') ->
  In zip_name names ->
  (exists p, Path.parts zip_name = Ok p)
  /\ (Path.endswith_slash zip_name = false ->
      exists dp, Path.parts (Path.dirname zip_name) = Ok dp).
Proof.
  revert fs. induction names as [|s names IH]; intros fs H Hin; [destruct Hin|].
  simpl in H. unfold bind in H.
  destruct (ReadZipFS.add_name s fs) as [[[]|e] fs1] eqn:Hs; [|discriminate].
  destruct Hin as [->|Hin]; [apply (add_name_parts _ _ _ Hs) | apply (IH _ H Hin)].
Qed.

Lemma built_entry (names : list string) (d : MemoryFS.t) (q : list string) :
  ReadZipFS.add_names names MemoryFS.empty = (Ok tt, d) ->
  MemoryFS.entry d q = match q with [] => Some true | _ => Index.node names q end.
Proof.
  intros H. rewrite (add_names_entry _ _ _ H q). destruct q; reflexivity.
Qed.

(** X12: when the index builds, every name of the archive has its node:
    the path of the name is in the index; for a name that ends with the
    separator that path and every ancestor of it is a directory, and
    for any other name every ancestor of the name's directory is a
    directory. *)
Theorem index_complete (file encoding : string) (table : list ZipFile.ZipInfo)
    (d : MemoryFS.t) (self : ReadZipFS.t) (zip_name : string) :
  ReadZipFS._directory (ReadZipFS.__init__ file encoding table) = (Ok d, self) ->
  In zip_name (ZipFile.namelist (ReadZipFS._zip (ReadZipFS.__init__ file encoding table))) ->
  exists p,
    Path.parts zip_name = Ok p
    /\ (exists b, MemoryFS.entry d p = Some b)
    /\ (Path.endswith_slash zip_name = true ->
        forall q, Path.is_prefix q p = true -> MemoryFS.entry d q = Some true)
    /\ (Path.endswith_slash zip_name = false ->
        exists dp,
          Path.parts (Path.dirname zip_name) = Ok dp
          /\ forall q, Path.is_prefix q dp = true -> MemoryFS.entry d q = Some true).
Proof.
  intros Hd Hin. apply directory_fresh in Hd.
  change (In zip_name (map ZipFile.filename table)) in Hin.
  destruct (add_names_parts _ _ _ _ Hd Hin) as [[p Hp] Hdir].
  assert (Hdirs : forall target q,
            Path.resolve
              (Path.split (if Path.endswith_slash zip_name then zip_name
                           else Path.dirname zip_name)) [] = Some target ->
            Path.is_prefix q target = true ->
            MemoryFS.entry d q = Some true).
  { intros target q Ht Hq. rewrite (built_entry _ _ q Hd).
    destruct q as [|c q]; [reflexivity|]. unfold Index.node.
    rewrite (existsb_flat_map _ Index.dirs_of zip_name); [reflexivity | exact Hin |].
    unfold Index.dirs_of. rewrite Ht.
    apply (prefix_in_prefixes target (c :: q) []); [exact Hq | discriminate]. }
  exists p. split; [exact Hp|].
  pose proof Hp as Hres. apply parts_resolve in Hres.
  destruct (Path.endswith_slash zip_name) eqn:Hslash.
  - assert (Hself : Path.is_prefix p p = true).
    { clear. induction p as [|c p IH]; [reflexivity|].
      simpl. rewrite String.eqb_refl. exact IH. }
    split; [exists true; apply (Hdirs p p Hres Hself)|].
    split; [intros _ q Hq; apply (Hdirs p q Hres Hq) | discriminate].
  - split.
    + rewrite (built_entry _ _ p Hd). destruct p as [|c p]; [eauto|].
      unfold Index.node.
      destruct (existsb _ (flat_map Index.dirs_of _)); [eauto|].
      rewrite (existsb_flat_map _ Index.files_of zip_name); [eauto | exact Hin |].
      unfold Index.files_of. rewrite Hslash, Hres. simpl.
      rewrite path_eqb_refl. reflexivity.
    + split; [discriminate|]. intros _.
      destruct (Hdir eq_refl) as [dp Hdp]. exists dp. split; [exact Hdp|].
      intros q Hq. apply parts_resolve in Hdp. apply (Hdirs dp q Hdp Hq).
Qed.

Lemma index_complete_witness :
  exists p,
    Path.parts "x/y.txt" = Ok p
    /\ (exists b, MemoryFS.entry [(["x"], true); (["x"; "y.txt"], false)]%string p = Some b).
Proof.
  destruct (index_complete "implied.zip" "utf-8"
              [Examples.record "x/y.txt" Examples.hi]
              [(["x"], true); (["x"; "y.txt"], false)]%string
              (snd (ReadZipFS._directory Examples.implied)) "x/y.txt"
              eq_refl (or_introl eq_refl))
    as (p & Hp & Hb & _).
  exists p. split; assumption.
Defined.

(** X13: when the index builds, it has no node that the archive does not
    ask for: a file of the index is the path of a name that does not end
    with the separator, and a directory of the index, the root apart, is
    the path of a name that ends with the separator, the directory of
    one that does not, or an ancestor of one of these. *)
Theorem index_sound (file encoding : string) (table : list ZipFile.ZipInfo)
    (d : MemoryFS.t) (self : ReadZipFS.t) (q : list string) (b : bool) :
  ReadZipFS._directory (ReadZipFS.__init__ file encoding table) = (Ok d, self) ->
  q <> [] ->
  MemoryFS.entry d q = Some b ->
  exists zip_name,
    In zip_name (map ZipFile.filename table)
    /\ if b then
         exists p,
           Path.is_prefix q p = true
           /\ Path.parts (if Path.endswith_slash zip_name then zip_name
                          else Path.dirname zip_name) = Ok p
       else
         Path.endswith_slash zip_name = false /\ Path.parts zip_name = Ok q.
Proof.
  intros Hd Hq He. apply directory_fresh in Hd.
  rewrite (built_entry _ _ q Hd) in He.
  destruct q as [|c q]; [congruence|]. unfold Index.node in He.
  destruct (existsb _ (flat_map Index.dirs_of _)) eqn:Hdirs.
  - inversion He; subst b.
    apply existsb_exists in Hdirs as (y & Hy & Heq).
    apply path_eqb_eq in Heq; subst y.
    apply in_flat_map in Hy as (zip_name & Hin & Hy).
    exists zip_name. split; [exact Hin|].
    unfold Index.dirs_of in Hy.
    destruct (Path.resolve _ _) as [p|] eqn:Hp; [|destruct Hy].
    exists p. split; [|apply parts_resolve, Hp].
    assert (Hex : existsb (Path.path_eqb (c :: q)) (Index.prefixes_from [] p) = true).
    { apply existsb_exists. exists (c :: q). split; [exact Hy | apply path_eqb_refl]. }
    destruct (prefixes_are_prefixes _ _ _ Hex) as (q' & Hq' & _ & Hpre).
    simpl in Hq'. subst q'. exact Hpre.
  - destruct (existsb _ (flat_map Index.files_of _)) eqn:Hfiles; [|discriminate].
    inversion He; subst b.
    apply existsb_exists in Hfiles as (y & Hy & Heq).
    apply path_eqb_eq in Heq; subst y.
    apply in_flat_map in Hy as (zip_name & Hin & Hy).
    exists zip_name. split; [exact Hin|].
    unfold Index.files_of in Hy.
    destruct (Path.endswith_slash zip_name); [destruct Hy|].
    destruct (Path.resolve _ _) as [p|] eqn:Hp; [|destruct Hy].
    destruct Hy as [->|[]]. split; [reflexivity | apply parts_resolve, Hp].
Qed.

Lemma index_sound_witness :
  exists zip_name,
    In zip_name ["x/y.txt"]%string
    /\ Path.endswith_slash zip_name = false
    /\ Path.parts zip_name = Ok ["x"; "y.txt"]%string.
Proof.
  apply (index_sound "implied.zip" "utf-8" [Examples.record "x/y.txt" Examples.hi]
           [(["x"], true); (["x"; "y.txt"], false)]%string
           (snd (ReadZipFS._directory Examples.implied))
           ["x"; "y.txt"]%string false); [reflexivity | discriminate | reflexivity].
Defined.

(** ** ReadZipFS: listing a directory *)

Lemma assoc_none_keys (fs : MemoryFS.t) (q : list string) :
  MemoryFS.assoc q fs = None -> ~ In q (map fst fs).
Proof.
  induction fs as [|[p b] fs IH]; simpl; [auto|].
  destruct (Path.path_eqb p q) eqn:Heq; [discriminate|].
  intros Hnone [Hp|Hin]; [|exact (IH Hnone Hin)].
  subst p. rewrite path_eqb_refl in Heq. discriminate.
Qed.

Lemma assoc_some_iff (fs : MemoryFS.t) (q : list string) :
  (exists b, MemoryFS.assoc q fs = Some b) <-> In q (map fst fs).
Proof.
  induction fs as [|[p b] fs IH]; simpl.
  - split; [intros [b Hb]; discriminate | intros []].
  - destruct (Path.path_eqb p q) eqn:Heq.
    + apply path_eqb_eq in Heq. split; [auto | eauto].
    + rewrite IH. split; [auto|]. intros [Hp|Hin]; [|exact Hin].
      subst p. rewrite path_eqb_refl in Heq. discriminate.
Qed.

Lemma keys_snoc (fs : MemoryFS.t) (q : list string) (b : bool) :
  q <> [] -> MemoryFS.entry fs q = None ->
  NoDup (map fst fs) -> NoDup (map fst (fs ++ [(q, b)])).
Proof.
  intros Hq He Hnd. rewrite map_app. simpl.
  apply NoDup_app; [exact Hnd | repeat constructor; intros [] | ].
  intros x Hx [<-|[]]. destruct q; [congruence|].
  exact (assoc_none_keys _ _ He Hx).
Qed.

Lemma makedirs_from_keys (path : string) (rest done : list string) (fs : MemoryFS.t) :
  NoDup (map fst fs) ->
  NoDup (map fst (snd (MemoryFS.makedirs_from path done rest fs))).
Proof.
  revert done fs. induction rest as [|c rest IH]; intros done fs Hnd; simpl.
  - exact Hnd.
  - destruct (MemoryFS.entry fs (done ++ [c])) as [[|]|] eqn:He.
    + apply IH, Hnd.
    + exact Hnd.
    + apply IH, keys_snoc; [apply snoc_not_nil | exact He | exact Hnd].
Qed.

Lemma add_name_keys (zip_name : string) (fs : MemoryFS.t) :
  NoDup (map fst fs) -> NoDup (map fst (snd (ReadZipFS.add_name zip_name fs))).
Proof.
  intros Hnd. unfold ReadZipFS.add_name.
  destruct (Path.endswith_slash zip_name).
  - unfold MemoryFS.makedirs, bind, lift.
    destruct (Path.parts zip_name) as [p|e]; [|exact Hnd].
    apply makedirs_from_keys, Hnd.
  - unfold MemoryFS.makedirs, MemoryFS.create, bind, lift, ret.
    destruct (Path.parts (Path.dirname zip_name)) as [dp|e]; [|exact Hnd].
    pose proof (makedirs_from_keys (Path.dirname zip_name) dp [] fs Hnd) as H1.
    destruct (MemoryFS.makedirs_from _ _ _ fs) as [[[]|e] fs1]; [|exact H1].
    simpl in H1.
    destruct (Path.parts zip_name) as [p|e]; [|exact H1].
    destruct (MemoryFS.entry fs1 p) as [b|] eqn:Hp; [exact H1|].
    destruct (MemoryFS.entry fs1 (removelast p)) as [[|]|]; try exact H1.
    simpl. apply keys_snoc; [intros ->; discriminate | exact Hp | exact H1].
Qed.

(** However the loop of [_directory] ends, the tree has one node for a
    path at most. *)
Lemma add_names_keys (names : list string) (fs : MemoryFS.t) :
  NoDup (map fst fs) -> NoDup (map fst (snd (ReadZipFS.add_names names fs))).
Proof.
  revert fs. induction names as [|s names IH]; intros fs Hnd; simpl; [exact Hnd|].
  unfold bind. pose proof (add_name_keys s fs Hnd) as H1.
  destruct (ReadZipFS.add_name s fs) as [[[]|e] fs1]; [apply IH, H1 | exact H1].
Qed.

Lemma children_in (fs : MemoryFS.t) (p : list string) (c : string) :
  In c (MemoryFS.children fs p) <-> In (p ++ [c]) (map fst fs).
Proof.
  unfold MemoryFS.children. rewrite !in_map_iff. split.
  - intros ([q b] & Hc & Hin). apply filter_In in Hin as [Hin Hchild].
    exists (q, b). split; [|exact Hin]. cbn [fst] in *.
    unfold MemoryFS.is_child_of in Hchild. cbn [fst] in Hchild.
    destruct q as [|c' q]; [discriminate|].
    change (Path.path_eqb (removelast (c' :: q)) p = true) in Hchild.
    apply path_eqb_eq in Hchild. unfold Path.basename in Hc.
    rewrite <- Hchild, <- Hc. apply app_removelast_last. discriminate.
  - intros ([q b] & Hq & Hin). simpl in Hq; subst q.
    exists (p ++ [c], b). split; [apply last_last|].
    apply filter_In. split; [exact Hin|].
    unfold MemoryFS.is_child_of. cbn [fst].
    destruct (p ++ [c]) as [|x l] eqn:Hpc; [destruct p; discriminate|].
    change (Path.path_eqb (removelast (x :: l)) p = true).
    rewrite <- Hpc, removelast_last. apply path_eqb_refl.
Qed.

Lemma children_nodup (fs : MemoryFS.t) (p : list string) :
  NoDup (map fst fs) -> NoDup (MemoryFS.children fs p).
Proof.
  induction fs as [|[q b] fs IH]; intros Hnd; [constructor|].
  inversion Hnd as [|? ? Hq Hnd']; subst.
  unfold MemoryFS.children. simpl.
  destruct (MemoryFS.is_child_of p (q, b)) eqn:Hchild; [|apply IH, Hnd'].
  simpl. constructor; [|apply IH, Hnd'].
  intros Hin. apply children_in in Hin. apply Hq.
  unfold MemoryFS.is_child_of in Hchild. cbn [fst] in Hchild, Hin.
  destruct q as [|c' q]; [discriminate|].
  change (Path.path_eqb (removelast (c' :: q)) p = true) in Hchild.
  apply path_eqb_eq in Hchild. unfold Path.basename in Hin.
  rewrite (app_removelast_last ""%string (l := c' :: q)) by discriminate.
  rewrite Hchild. exact Hin.
Qed.

Lemma directory_first_access (file encoding : string) (table : list ZipFile.ZipInfo)
    (r : result MemoryFS.t) (self : ReadZipFS.t) :
  ReadZipFS._directory (ReadZipFS.__init__ file encoding table) = (r, self) ->
  self = ReadZipFS.set_directory_fs
           (snd (ReadZipFS.add_names (map ZipFile.filename table) MemoryFS.empty))
           (ReadZipFS.__init__ file encoding table).
Proof.
  unfold ReadZipFS._directory, ReadZipFS.__init__, bind, ReadZipFS.check,
    ReadZipFS.isclosed, ZipFile.namelist. simpl.
  destruct (ReadZipFS.add_names _ _) as [[[]|e] fs]; intros H; inversion H; reflexivity.
Qed.

(** X14: once a backend has built its index, also when the build
    raised, [listdir] of a directory of the index returns each name
    once, and the names it returns are those of the paths right under
    the directory that the index has; on a path that the index does not
    have it raises [ResourceNotFound], and on a file
    [DirectoryExpected]. *)
Theorem listdir_lists_children (file encoding : string) (table : list ZipFile.ZipInfo)
    (r : result MemoryFS.t) (self : ReadZipFS.t) (d : MemoryFS.t)
    (path : string) (p : list string) :
  ReadZipFS._directory (ReadZipFS.__init__ file encoding table) = (r, self) ->
  ReadZipFS._directory_fs self = Some d ->
  Path.parts path = Ok p ->
  match MemoryFS.entry d p with
  | None => ReadZipFS.listdir path self = (Raise (ResourceNotFound path), self)
  | Some false => ReadZipFS.listdir path self = (Raise (DirectoryExpected path), self)
  | Some true =>
      exists names,
        ReadZipFS.listdir path self = (Ok names, self)
        /\ NoDup names
        /\ forall c, In c names <-> exists b, MemoryFS.entry d (p ++ [c]) = Some b
  end.
Proof.
  intros Hd Hfs Hp. apply directory_first_access in Hd. subst self.
  simpl in Hfs. inversion Hfs as [Hd]; clear Hfs.
  unfold ReadZipFS.listdir, ReadZipFS._directory, bind, lift, ReadZipFS.check,
    ReadZipFS.isclosed, MemoryFS.listdir.
  simpl. rewrite Hd, Hp.
  destruct (MemoryFS.entry d p) as [[|]|]; try reflexivity.
  eexists. split; [reflexivity|]. split.
  - apply children_nodup. rewrite <- Hd. apply add_names_keys. constructor.
  - intros c. rewrite children_in, <- assoc_some_iff.
    unfold MemoryFS.entry. destruct (p ++ [c]) eqn:Hpc; [destruct p; discriminate|].
    reflexivity.
Qed.

Lemma listdir_lists_children_witness :
  exists names,
    ReadZipFS.listdir "/x" (snd (ReadZipFS._directory Examples.implied))
    = (Ok names, snd (ReadZipFS._directory Examples.implied))
    /\ NoDup names
    /\ forall c, In c names
                 <-> exists b, MemoryFS.entry [(["x"], true); (["x"; "y.txt"], false)]%string
                                 (["x"]%string ++ [c]) = Some b.
Proof.
  exact (listdir_lists_children "implied.zip" "utf-8"
           [Examples.record "x/y.txt" Examples.hi]
           (fst (ReadZipFS._directory Examples.implied))
           (snd (ReadZipFS._directory Examples.implied))
           [(["x"], true); (["x"; "y.txt"], false)]%string "/x" ["x"]%string
           eq_refl eq_refl eq_refl).
Defined.

(** ** ReadZipFS: reading a file *)

Lemma isfile_exists_isdir (d : MemoryFS.t) (path : string) :
  MemoryFS.isfile d path = Ok true ->
  MemoryFS.exists_ d path = Ok true /\ MemoryFS.isdir d path = Ok false.
Proof.
  unfold MemoryFS.isfile, MemoryFS.exists_, MemoryFS.isdir.
  destruct (Path.parts path) as [p|e]; [|discriminate].
  destruct (MemoryFS.entry d p) as [[|]|]; try discriminate. auto.
Qed.

(** X15: on a backend that is not closed, [readbytes] raises
    [ResourceNotFound] carrying the path when the index does not have
    the path as a file.  When it has, [readbytes] and [openbin] with a
    reading mode look up the same record, under the canonical path
    without its leading separator: [readbytes] returns the bytes that
    the stream of [openbin] holds, and both raise [KeyError] when the
    archive has no record of that name. *)
Theorem readbytes_outcome (self self' : ReadZipFS.t) (d : MemoryFS.t)
    (path np mode : string) :
  ReadZipFS._closed self = false ->
  ReadZipFS._directory self = (Ok d, self') ->
  Path.normpath path = Ok np ->
  contains "w" mode || contains "+" mode || contains "a" mode = false ->
  match MemoryFS.isfile d path with
  | Raise e => ReadZipFS.readbytes path self = (Raise e, self')
  | Ok false => ReadZipFS.readbytes path self = (Raise (ResourceNotFound path), self')
  | Ok true =>
      match ZipFile.lookup (Path.relpath np) (ZipFile.filelist (ReadZipFS._zip self)) with
      | Some zip_info =>
          ReadZipFS.readbytes path self = (Ok (ZipFile.contents zip_info), self')
          /\ ReadZipFS.openbin path mode self
             = (Ok {| ZipFile.stream_data := ZipFile.contents zip_info;
                      ZipFile.stream_offset := 0 |}, self')
      | None =>
          ReadZipFS.readbytes path self = (Raise (KeyError (Path.relpath np)), self')
          /\ ReadZipFS.openbin path mode self
             = (Raise (KeyError (Path.relpath np)), self')
      end
  end.
Proof.
  intros Hopen Hd Hn Hmode.
  destruct (directory_cached _ _ _ Hopen Hd) as (Hopen' & Hzip & Hd').
  destruct (MemoryFS.isfile d path) as [[|]|e] eqn:Hfile;
    try (unfold ReadZipFS.readbytes, bind, lift, raise;
         rewrite (check_open self Hopen), Hd, Hfile; reflexivity).
  destruct (isfile_exists_isdir _ _ Hfile) as [Hex Hdir].
  pose proof (path_to_zip_name_cached _ _ _ _ _ Hd' Hn
                (isdir_relpath_normpath _ _ _ _ Hn Hdir)) as Hname.
  assert (Hread : ReadZipFS.readbytes path self
                  = (ZipFile.read (ReadZipFS._zip self) (Path.relpath np), self')).
  { unfold ReadZipFS.readbytes, bind, lift, raise.
    rewrite (check_open self Hopen), Hd, Hfile. simpl. rewrite Hname, Hzip. reflexivity. }
  assert (Hopenbin : ReadZipFS.openbin path mode self
                     = (ZipFile.open (ReadZipFS._zip self) (Path.relpath np), self')).
  { unfold ReadZipFS.openbin, bind, lift, raise.
    rewrite (check_open self Hopen), Hmode, Hd, Hex. simpl.
    rewrite Hd', Hdir, Hname, Hzip. reflexivity. }
  rewrite Hread, Hopenbin. unfold ZipFile.read, ZipFile.open, ZipFile.getinfo.
  destruct (ZipFile.lookup _ _); split; reflexivity.
Qed.

Lemma readbytes_outcome_witness :
  ReadZipFS.readbytes "/x/y.txt" Examples.implied
  = (Ok Examples.hi, snd (ReadZipFS._directory Examples.implied))
  /\ ReadZipFS.openbin "/x/y.txt" "rb" Examples.implied
     = (Ok {| ZipFile.stream_data := Examples.hi; ZipFile.stream_offset := 0 |},
        snd (ReadZipFS._directory Examples.implied)).
Proof.
  exact (readbytes_outcome Examples.implied
           (snd (ReadZipFS._directory Examples.implied))
           [(["x"], true); (["x"; "y.txt"], false)]%string
           "/x/y.txt" "/x/y.txt" "rb" eq_refl eq_refl eq_refl eq_refl).
Defined.

(** ** ReadZipFS: the archive name of a path *)

Lemma relpath_id (s : string) : Path.startswith_slash s = false -> Path.relpath s = s.
Proof.
  destruct s as [|c s]; [reflexivity|]. simpl. intros ->. reflexivity.
Qed.

Lemma kept_starts (c : string) : kept c -> Path.startswith_slash c = false.
Proof.
  intros (Hfree & Hne & _). destruct c as [|a c]; [reflexivity|].
  unfold slash_free in Hfree. simpl in *.
  apply orb_false_iff in Hfree as [Ha _]. exact Ha.
Qed.

Lemma startswith_app (a b : string) :
  a <> ""%string -> Path.startswith_slash (a ++ b)%string = Path.startswith_slash a.
Proof.
  destruct a; [congruence | reflexivity].
Qed.

Lemma join_cons (c : string) (cs : list string) :
  Path.join (c :: cs)
  = match cs with
    | [] => c
    | _ => (c ++ String Path.slash (Path.join cs))%string
    end.
Proof.
  destruct cs; reflexivity.
Qed.

Lemma join_starts (cs : list string) :
  Forall kept cs -> Path.startswith_slash (Path.join cs) = false.
Proof.
  intros Hk. destruct cs as [|c cs]; [reflexivity|].
  inversion Hk as [|? ? Hc _]; subst. rewrite join_cons.
  destruct cs; [apply kept_starts, Hc|].
  rewrite startswith_app; [apply kept_starts, Hc | apply Hc].
Qed.

Lemma endswith_cons (a : ascii) (s : string) :
  s <> ""%string -> Path.endswith_slash (String a s) = Path.endswith_slash s.
Proof.
  destruct s; [congruence | reflexivity].
Qed.

Lemma endswith_app (a b : string) :
  b <> ""%string -> Path.endswith_slash (a ++ b)%string = Path.endswith_slash b.
Proof.
  intros Hb. induction a as [|x a IH]; [reflexivity|].
  simpl. rewrite <- IH. apply endswith_cons.
  destruct a; [exact Hb | discriminate].
Qed.

Lemma endswith_slash_free (c : string) : slash_free c -> Path.endswith_slash c = false.
Proof.
  unfold slash_free. induction c as [|a c IH]; [reflexivity|].
  simpl. intros H. apply orb_false_iff in H as [Ha Hc].
  destruct c; [exact Ha | apply IH, Hc].
Qed.

Lemma join_ends (cs : list string) :
  Forall kept cs -> Path.endswith_slash (Path.join cs) = false.
Proof.
  induction cs as [|c cs IH]; intros Hk; [reflexivity|].
  inversion Hk as [|? ? Hc Hcs]; subst. rewrite join_cons.
  destruct cs as [|c' cs]; [apply endswith_slash_free, Hc|].
  assert (Hne : Path.join (c' :: cs) <> ""%string).
  { inversion Hcs as [|? ? Hc' _]; subst. rewrite join_cons.
    destruct Hc' as (_ & Hne & _).
    destruct cs; [exact Hne|]. destruct c'; [congruence | discriminate]. }
  rewrite endswith_app by discriminate.
  rewrite endswith_cons by exact Hne. apply IH, Hcs.
Qed.

(** X16: on a backend that is not closed, the archive name of a path is
    made of the components of the canonical path alone, joined by the
    separator, with one separator after them when the index has the
    path as a directory: no leading separator, and the same name for
    every spelling of the path.  The root maps to ["/"]. *)
Theorem path_to_zip_name_canonical (self self' : ReadZipFS.t) (d : MemoryFS.t)
    (path : string) (p : list string) :
  ReadZipFS._closed self = false ->
  ReadZipFS._directory self = (Ok d, self') ->
  Path.parts path = Ok p ->
  ReadZipFS._path_to_zip_name path self
  = (Ok (Path.join p
         ++ (if match MemoryFS.entry d p with Some true => true | _ => false end
             then "/" else ""))%string, self').
Proof.
  intros Hopen Hd Hp.
  assert (Hk : Forall kept p).
  { apply parts_resolve in Hp.
    eapply resolve_yields_kept; [| constructor | exact Hp].
    intros c; apply split_slash_free. }
  assert (Hn : Path.normpath path
               = Ok ((if Path.startswith_slash path then "/" else "") ++ Path.join p)%string).
  { unfold Path.normpath. rewrite Hp. reflexivity. }
  assert (Hrel : Path.relpath
                   ((if Path.startswith_slash path then "/" else "") ++ Path.join p)%string
                 = Path.join p).
  { destruct (Path.startswith_slash path); simpl; apply relpath_id, join_starts, Hk. }
  assert (Hdir : MemoryFS.isdir d (Path.join p)
                 = Ok (match MemoryFS.entry d p with Some true => true | _ => false end)).
  { unfold MemoryFS.isdir, Path.parts. rewrite <- Hrel at 1.
    rewrite resolve_split_relpath, (resolve_split_normpath _ _ Hn).
    apply parts_resolve in Hp. rewrite Hp.
    destruct (MemoryFS.entry d p) as [[|]|]; reflexivity. }
  unfold ReadZipFS._path_to_zip_name, bind, lift, ret.
  rewrite Hn, Hrel, Hd, Hdir.
  destruct (match MemoryFS.entry d p with Some true => true | _ => false end).
  - unfold Path.forcedir. rewrite (join_ends _ Hk). reflexivity.
  - f_equal. f_equal. clear. induction (Path.join p) as [|a s IH]; [reflexivity|].
    simpl. rewrite <- IH. reflexivity.
Qed.

Lemma path_to_zip_name_canonical_witness :
  fst (ReadZipFS._path_to_zip_name "//x/./z/.." Examples.implied) = Ok "x/"%string
  /\ fst (ReadZipFS._path_to_zip_name "/" Examples.implied) = Ok "/"%string.
Proof.
  split.
  - rewrite (path_to_zip_name_canonical Examples.implied
               (snd (ReadZipFS._directory Examples.implied))
               [(["x"], true); (["x"; "y.txt"], false)]%string
               "//x/./z/.." ["x"]%string eq_refl eq_refl eq_refl).
    reflexivity.
  - rewrite (path_to_zip_name_canonical Examples.implied
               (snd (ReadZipFS._directory Examples.implied))
               [(["x"], true); (["x"; "y.txt"], false)]%string
               "/" [] eq_refl eq_refl eq_refl).
    reflexivity.
Defined.

(** ** ReadZipFS: a record with a date that is no date *)

(** X17: on a backend that is not closed, for a path other than the root
    that the index has and whose archive name has a record, [getinfo]
    with [details] among the namespaces raises the [ValueError] of
    [datetime] when the record's date is one that [datetime] refuses
    (a month 0, say), whatever else is asked for; without [details] the
    same call returns. *)
Theorem getinfo_details_bad_date (self self' : ReadZipFS.t) (d : MemoryFS.t)
    (path np : string) (namespaces : list string) (basic_info : string * bool)
    (zip_info : ZipFile.ZipInfo) (e : Error) :
  ReadZipFS._closed self = false ->
  ReadZipFS._directory self = (Ok d, self') ->
  Path.normpath path = Ok np ->
  Path.abspath np <> "/"%string ->
  MemoryFS.getinfo d (Path.abspath np) = Ok basic_info ->
  ZipFile.lookup
    (if snd basic_info then Path.forcedir (Path.relpath np) else Path.relpath np)
    (ZipFile.filelist (ReadZipFS._zip self)) = Some zip_info ->
  Time.make_datetime (ZipFile.date_time zip_info) = Raise e ->
  (mem "details" namespaces = true ->
   ReadZipFS.getinfo path namespaces self = (Raise e, self'))
  /\ (mem "details" namespaces = false ->
      exists info, ReadZipFS.getinfo path namespaces self = (Ok info, self')
                   /\ basic info = basic_info /\ details info = None).
Proof.
  intros Hopen Hd Hn Hroot Hinfo Hz Hdate.
  destruct (directory_cached _ _ _ Hopen Hd) as (Hopen' & Hzip & Hd').
  pose proof (path_to_zip_name_cached _ _ _ _ _ Hd' Hn (isdir_of_getinfo _ _ _ Hinfo))
    as Hname.
  apply String.eqb_neq in Hroot.
  unfold ReadZipFS.getinfo, ReadZipFS.validatepath, bind, lift, ret.
  rewrite (check_open self Hopen), Hn, Hroot, Hd, Hinfo.
  split; intros Hdet; rewrite Hdet; simpl.
  - rewrite Hname. unfold ZipFile.getinfo. rewrite Hzip, Hz, Hdate. reflexivity.
  - destruct (mem "access" namespaces || mem "zip" namespaces).
    + rewrite Hname. unfold ZipFile.getinfo. rewrite Hzip, Hz.
      eexists. repeat split.
    + eexists. repeat split.
Qed.

Lemma getinfo_details_bad_date_witness :
  let undated :=
    ReadZipFS.__init__ "undated.zip" "utf-8"
      [{| ZipFile.filename := "a"; ZipFile.file_size := 0;
          ZipFile.date_time := (1980, 0, 0, 0, 0, 0)%Z;
          ZipFile.external_attr := 0; ZipFile.create_system := 0;
          ZipFile.contents := [] |}] in
  fst (ReadZipFS.getinfo "/a" ["details"]%string undated)
  = Raise (ValueError "datetime field out of range").
Proof.
  intros undated.
  destruct (getinfo_details_bad_date undated (snd (ReadZipFS._directory undated))
              [(["a"]%string, false)] "/a" "/a" ["details"]%string ("a"%string, false)
              {| ZipFile.filename := "a"; ZipFile.file_size := 0;
                 ZipFile.date_time := (1980, 0, 0, 0, 0, 0)%Z;
                 ZipFile.external_attr := 0; ZipFile.create_system := 0;
                 ZipFile.contents := [] |}
              (ValueError "datetime field out of range")
              eq_refl eq_refl eq_refl ltac:(discriminate) eq_refl eq_refl eq_refl)
    as [H _].
  rewrite (H eq_refl). reflexivity.
Defined.

(** ** WriteZipFS: flushing and closing *)

Section WriteBackendFlush.

Variable TempFS : Type.
Variable World : Type.
Variable temp_close : TempFS -> result unit * TempFS.
Variable compress_write_zip :
  TempFS -> string -> Z -> string -> World -> result unit * World.

Local Abbreviation close :=
  (WriteZipFS.close TempFS World temp_close compress_write_zip).
Local Abbreviation write_zip :=
  (WriteZipFS.write_zip TempFS World compress_write_zip).

(** X18: [close] on an instance that is not closed calls the serializer
    once, on the scratch backend and with the instance's target,
    compression and encoding, and then closes the scratch backend,
    whatever the serializer did.  It returns exactly when both
    returned, and the instance is marked closed exactly when [close]
    returned: after a [close] that raised, the instance still counts as
    open. *)
Theorem close_outcome (self : WriteZipFS.t TempFS) (w : World) :
  WriteZipFS._closed TempFS self = false ->
  let flushed :=
    compress_write_zip (WriteZipFS._temp_fs TempFS self) (WriteZipFS._file TempFS self)
      (WriteZipFS.compression TempFS self) (WriteZipFS.encoding TempFS self) w in
  let released := temp_close (WriteZipFS._temp_fs TempFS self) in
  let after := close (self, w) in
  snd (snd after) = snd flushed
  /\ WriteZipFS._temp_fs TempFS (fst (snd after)) = snd released
  /\ (fst after = Ok tt <-> fst flushed = Ok tt /\ fst released = Ok tt)
  /\ (WriteZipFS._closed TempFS (fst (snd after)) = true <-> fst after = Ok tt).
Proof.
  intros Hc.
  unfold WriteZipFS.close, bind, WriteZipFS.isclosed, WriteZipFS.try_finally,
    WriteZipFS.write_zip, WriteZipFS.close_temp_fs, WriteZipFS.super_close,
    WriteZipFS.isclosed.
  simpl. rewrite Hc. simpl.
  destruct (compress_write_zip _ _ _ _ w) as [[[]|e] w'];
    destruct (temp_close _) as [[[]|e'] fs']; simpl;
    repeat split; auto; try discriminate;
    try (intros [H1 H2]; discriminate); try (rewrite Hc; discriminate).
Qed.

(** X19: [write_zip] on an instance that is not closed calls the
    serializer once and leaves the instance as it is, still open,
    whether the serializer returned or raised; so a [close] after it
    serializes once more.  An argument that is false in Python (no
    target or the empty name, no compression or 0, no encoding or the
    empty name) is replaced by the instance's own value: a compression
    of 0 cannot be asked for. *)
Theorem write_zip_outcome (self : WriteZipFS.t TempFS) (w : World)
    (file : option string) (compression : option Z) (encoding : option string) :
  WriteZipFS._closed TempFS self = false ->
  let file' := match file with
               | Some f => if String.eqb f "" then WriteZipFS._file TempFS self else f
               | None => WriteZipFS._file TempFS self
               end in
  let compression' := match compression with
                      | Some c => if (c =? 0)%Z then WriteZipFS.compression TempFS self else c
                      | None => WriteZipFS.compression TempFS self
                      end in
  let encoding' := match encoding with
                   | Some e => if String.eqb e "" then WriteZipFS.encoding TempFS self else e
                   | None => WriteZipFS.encoding TempFS self
                   end in
  let flushed :=
    compress_write_zip (WriteZipFS._temp_fs TempFS self) file' compression' encoding' w in
  write_zip file compression encoding (self, w) = (fst flushed, (self, snd flushed))
  /\ snd (snd (close (self, snd flushed)))
     = snd (compress_write_zip (WriteZipFS._temp_fs TempFS self)
              (WriteZipFS._file TempFS self) (WriteZipFS.compression TempFS self)
              (WriteZipFS.encoding TempFS self) (snd flushed)).
Proof.
  intros Hc. split.
  - unfold WriteZipFS.write_zip, WriteZipFS.isclosed, WriteZipFS.or_string,
      WriteZipFS.or_int.
    rewrite Hc. simpl. destruct (compress_write_zip _ _ _ _ w). reflexivity.
  - unfold WriteZipFS.close, bind, WriteZipFS.isclosed, WriteZipFS.try_finally,
      WriteZipFS.write_zip, WriteZipFS.close_temp_fs, WriteZipFS.super_close,
      WriteZipFS.isclosed.
    simpl. rewrite Hc. simpl.
    destruct (compress_write_zip _ _ _ _ (snd _)) as [[[]|e] w'];
      destruct (temp_close _) as [[[]|e'] fs']; reflexivity.
Qed.

End WriteBackendFlush.

Lemma close_outcome_witness :
  fst (WriteZipFS.close bool (list string) Examples.temp_close
         Examples.compress_write_zip (Examples.writer "out.zip" false, [])) = Ok tt
  <-> fst (Examples.compress_write_zip false "out.zip" 8 "utf-8" []) = Ok tt
      /\ fst (Examples.temp_close false) = Ok tt.
Proof.
  apply (close_outcome bool (list string) Examples.temp_close
           Examples.compress_write_zip (Examples.writer "out.zip" false) []).
  reflexivity.
Defined.

Lemma write_zip_outcome_witness :
  WriteZipFS.write_zip bool (list string) Examples.compress_write_zip
    (Some "snapshot.zip"%string) (Some 0%Z) None (Examples.writer "out.zip" false, [])
  = (Ok tt, (Examples.writer "out.zip" false, ["snapshot.zip"%string])).
Proof.
  apply (write_zip_outcome bool (list string) Examples.temp_close
           Examples.compress_write_zip (Examples.writer "out.zip" false) []
           (Some "snapshot.zip"%string) (Some 0%Z) None).
  reflexivity.
Defined.

(** ** ReadZipFS: when the index builds *)

Lemma split_not_nil (s : string) : Path.split s <> [].
Proof.
  destruct s as [|a s]; simpl; [discriminate|].
  destruct (Ascii.eqb a Path.slash); [discriminate|].
  destruct (Path.split s); discriminate.
Qed.

Lemma in_removelast {A : Type} (l : list A) (x : A) : In x (removelast l) -> In x l.
Proof.
  induction l as [|a l IH]; [auto|]. simpl.
  destruct l as [|b l]; [intros [] | intros [->|H]; [left; reflexivity | right; apply IH, H]].
Qed.

(** Normalising one more component. *)
Lemma resolve_snoc (xs stack : list string) (l : string) :
  Path.resolve (xs ++ [l]) stack
  = match Path.resolve xs stack with
    | None => None
    | Some out =>
        if String.eqb l ".." then
          match out with [] => None | _ => Some (removelast out) end
        else if String.eqb l "" || String.eqb l "." then Some out
        else Some (out ++ [l])
    end.
Proof.
  revert stack. induction xs as [|x xs IH]; intros stack.
  - simpl. destruct (String.eqb l "..").
    + destruct stack as [|y stack]; [reflexivity|]. simpl.
      rewrite removelast_last. destruct (rev stack ++ [y]) eqn:H; [|reflexivity].
      destruct (rev stack); discriminate.
    + destruct (String.eqb l "" || String.eqb l "."); reflexivity.
  - simpl. destruct (String.eqb x "..").
    + destruct stack; [reflexivity | apply IH].
    + destruct (String.eqb x "" || String.eqb x "."); apply IH.
Qed.

(** The directory of a name normalises as the name without its last
    component. *)
Lemma resolve_dirname (s : string) :
  Path.resolve (Path.split (Path.dirname s)) []
  = Path.resolve (removelast (Path.split s)) [].
Proof.
  unfold Path.dirname.
  pose proof (split_slash_free s) as Hfree.
  destruct (Path.split s) as [|x [|y cs]]; [reflexivity | reflexivity|].
  set (cs' := removelast (x :: y :: cs)).
  assert (Hall : Forall slash_free cs').
  { apply Forall_forall. intros c Hc. apply Hfree, in_removelast, Hc. }
  assert (Hne : cs' <> []) by (unfold cs'; simpl; destruct cs; discriminate).
  destruct (String.eqb (Path.join cs') "") eqn:Hhead.
  - apply String.eqb_eq in Hhead.
    destruct cs' as [|c1 [|c2 rest]]; [congruence | |].
    + rewrite join_cons in Hhead. subst c1. reflexivity.
    + rewrite join_cons in Hhead. destruct c1; discriminate.
  - rewrite (split_join _ Hne Hall). reflexivity.
Qed.

(** The path of a name is the path of its directory, that path with
    one more component, or the parent of that path. *)
Lemma parts_file_shape (s : string) (p : list string) :
  Path.resolve (Path.split s) [] = Some p ->
  exists dp,
    Path.resolve (Path.split (Path.dirname s)) [] = Some dp
    /\ (p = dp \/ (exists l, p = dp ++ [l]) \/ (dp <> [] /\ p = removelast dp)).
Proof.
  rewrite resolve_dirname.
  rewrite (app_removelast_last ""%string (split_not_nil s)) at 1.
  rewrite resolve_snoc.
  destruct (Path.resolve (removelast (Path.split s)) []) as [dp|]; [|discriminate].
  intros H. exists dp. split; [reflexivity|].
  destruct (String.eqb _ "..").
  - destruct dp as [|c dp]; [discriminate|]. inversion H.
    right. right. split; [discriminate | reflexivity].
  - destruct (String.eqb _ "" || String.eqb _ "."); inversion H; eauto.
Qed.

Lemma is_prefix_refl (p : list string) : Path.is_prefix p p = true.
Proof.
  induction p as [|c p IH]; [reflexivity|]. simpl. rewrite String.eqb_refl. exact IH.
Qed.

Lemma is_prefix_removelast (p : list string) : Path.is_prefix (removelast p) p = true.
Proof.
  induction p as [|c p IH]; [reflexivity|].
  destruct p as [|c' p]; [reflexivity|].
  change (removelast (c :: c' :: p)) with (c :: removelast (c' :: p)).
  simpl Path.is_prefix. rewrite String.eqb_refl. exact IH.
Qed.

(** After [makedirs] the directory and its ancestors are directories. *)
Lemma makedirs_from_made (path : string) (dp q : list string) (fs fs' : MemoryFS.t) :
  MemoryFS.makedirs_from path [] dp fs = (Ok tt, fs') ->
  Path.is_prefix q dp = true ->
  MemoryFS.entry fs' q = Some true.
Proof.
  intros H Hq. destruct q as [|c q]; [reflexivity|].
  pose proof (prefix_in_prefixes dp (c :: q) [] Hq ltac:(discriminate)) as Hin.
  simpl in Hin. rewrite (makedirs_from_entry _ _ _ _ _ H), Hin.
  destruct (MemoryFS.entry fs (c :: q)) as [[|]|] eqn:He; try reflexivity.
  destruct (makedirs_from_blocked path dp [] fs (c :: q) He Hin) as (e & fs'' & Hr).
  congruence.
Qed.

(** One turn of the loop goes through when the name normalises and no
    file stands where the name needs a directory. *)
Lemma add_name_total (zip_name : string) (p : list string) (fs : MemoryFS.t) :
  Path.parts zip_name = Ok p ->
  (forall q, existsb (Path.path_eqb q) (Index.dirs_of zip_name) = true ->
             MemoryFS.entry fs q <> Some false) ->
  exists fs', ReadZipFS.add_name zip_name fs = (Ok tt, fs').
Proof.
  intros Hp Hfree. pose proof Hp as Hres. apply parts_resolve in Hres.
  unfold ReadZipFS.add_name, Index.dirs_of in *.
  destruct (Path.endswith_slash zip_name).
  - unfold MemoryFS.makedirs, bind, lift. rewrite Hp. rewrite Hres in Hfree.
    apply makedirs_from_total, Hfree.
  - destruct (parts_file_shape _ _ Hres) as (dp & Hdp & Hshape).
    rewrite Hdp in Hfree.
    unfold MemoryFS.makedirs, MemoryFS.create, bind, lift, ret, Path.parts.
    rewrite Hdp, Hres.
    destruct (makedirs_from_total (Path.dirname zip_name) dp [] fs Hfree) as (fs1 & Hm).
    rewrite Hm.
    destruct (MemoryFS.entry fs1 p) as [b|] eqn:He; [eauto|].
    assert (Hparent : MemoryFS.entry fs1 (removelast p) = Some true).
    { destruct Hshape as [->|[[l ->]|[_ ->]]].
      - rewrite (makedirs_from_made _ _ _ _ _ Hm (is_prefix_refl dp)) in He. discriminate.
      - rewrite removelast_last. apply (makedirs_from_made _ _ _ _ _ Hm (is_prefix_refl dp)).
      - rewrite (makedirs_from_made _ _ _ _ _ Hm (is_prefix_removelast dp)) in He.
        discriminate. }
    rewrite Hparent. eauto.
Qed.

Lemma add_names_total (all names : list string) (fs : MemoryFS.t) :
  incl names all ->
  (forall s, In s names -> exists p, Path.parts s = Ok p) ->
  (forall q, existsb (Path.path_eqb q) (flat_map Index.files_of all) = true ->
             existsb (Path.path_eqb q) (flat_map Index.dirs_of all) = false) ->
  (forall q, MemoryFS.entry fs q = Some false ->
             existsb (Path.path_eqb q) (flat_map Index.files_of all) = true) ->
  exists fs', ReadZipFS.add_names names fs = (Ok tt, fs').
Proof.
  intros Hincl Hparts Hfree. revert fs Hincl Hparts.
  induction names as [|s names IH]; intros fs Hincl Hparts Hfiles; simpl.
  - unfold ret. eauto.
  - destruct (Hparts s (or_introl eq_refl)) as [p Hp].
    assert (Hs : In s all) by (apply Hincl; left; reflexivity).
    destruct (add_name_total s p fs Hp) as (fs1 & H1).
    { intros q Hq Hfile.
      pose proof (Hfree q (Hfiles q Hfile)) as Hno.
      rewrite (existsb_flat_map _ Index.dirs_of s all Hs Hq) in Hno. discriminate. }
    unfold bind. rewrite H1. apply IH.
    + intros x Hx. apply Hincl. right. exact Hx.
    + intros x Hx. apply Hparts. right. exact Hx.
    + intros q Hq. rewrite (add_name_entry _ _ _ H1 q) in Hq.
      destruct (MemoryFS.entry fs q) as [b|] eqn:He.
      * inversion Hq; subst b. apply Hfiles, He.
      * apply (existsb_flat_map _ Index.files_of s all Hs).
        unfold Index.node in Hq. simpl in Hq. rewrite !app_nil_r in Hq.
        destruct (existsb _ (Index.dirs_of s)); [discriminate|].
        destruct (existsb _ (Index.files_of s)); [reflexivity | discriminate].
Qed.

(** X20: the index builds, in whatever order the archive stores its
    names, when every name has a canonical form (no [..] that climbs
    above the root) and no name stored as a file is also the directory
    of another name, a name that ends with the separator, or an
    ancestor of one of these. *)
Theorem index_builds (file encoding : string) (table : list ZipFile.ZipInfo) :
  (forall zip_name, In zip_name (map ZipFile.filename table) ->
                    exists p, Path.parts zip_name = Ok p) ->
  (forall file_name other p target,
     In file_name (map ZipFile.filename table) ->
     In other (map ZipFile.filename table) ->
     Path.endswith_slash file_name = false ->
     Path.parts file_name = Ok p ->
     p <> [] ->
     Path.parts (if Path.endswith_slash other then other else Path.dirname other)
     = Ok target ->
     Path.is_prefix p target = false) ->
  exists d,
    ReadZipFS._directory (ReadZipFS.__init__ file encoding table)
    = (Ok d, ReadZipFS.set_directory_fs d (ReadZipFS.__init__ file encoding table)).
Proof.
  intros Hparts Hfree.
  destruct (add_names_total (map ZipFile.filename table) (map ZipFile.filename table)
              MemoryFS.empty) as (d & Hd).
  - intros x Hx. exact Hx.
  - exact Hparts.
  - intros q Hfile.
    destruct (existsb (Path.path_eqb q) (flat_map Index.dirs_of _)) eqn:Hdir;
      [|reflexivity].
    exfalso.
    apply existsb_exists in Hfile as (y & Hy & Heq).
    apply path_eqb_eq in Heq; subst y.
    apply in_flat_map in Hy as (file_name & Hin & Hy).
    unfold Index.files_of in Hy.
    destruct (Path.endswith_slash file_name) eqn:Hslash; [destruct Hy|].
    destruct (Path.resolve (Path.split file_name) []) as [p|] eqn:Hp; [|destruct Hy].
    destruct Hy as [->|[]].
    apply existsb_exists in Hdir as (y & Hy & Heq).
    apply path_eqb_eq in Heq; subst y.
    apply in_flat_map in Hy as (other & Hin' & Hy).
    unfold Index.dirs_of in Hy.
    destruct (Path.resolve
                (Path.split (if Path.endswith_slash other then other
                             else Path.dirname other)) [])
      as [target|] eqn:Ht; [|destruct Hy].
    assert (Hex : existsb (Path.path_eqb q) (Index.prefixes_from [] target) = true).
    { apply existsb_exists. exists q. split; [exact Hy | apply path_eqb_refl]. }
    destruct (prefixes_are_prefixes _ _ _ Hex) as (q' & Hq' & Hne & Hpre).
    simpl in Hq'. subst q'.
    rewrite (Hfree file_name other q target Hin Hin' Hslash
               (proj2 (parts_resolve _ _) Hp) Hne (proj2 (parts_resolve _ _) Ht)) in Hpre.
    discriminate.
  - intros q Hq. destruct q; simpl in Hq; discriminate.
  - exists d. apply directory_built, Hd.
Qed.

Lemma index_builds_witness :
  exists d,
    ReadZipFS._directory Examples.explicit
    = (Ok d, ReadZipFS.set_directory_fs d Examples.explicit).
Proof.
  apply (index_builds "explicit.zip" "utf-8"
           [Examples.record "x/" []; Examples.record "x/y.txt" Examples.hi]).
  - intros zip_name [<-|[<-|[]]]; eexists; reflexivity.
  - intros file_name other p target [<-|[<-|[]]] [<-|[<-|[]]] Hslash Hp Hne Ht;
      try discriminate; inversion Hp; subst p; inversion Ht; subst target; reflexivity.
Defined.

(** ** fs.time.datetime_to_epoch *)

Lemma days_before_year_succ (y : Z) :
  Time.days_before_year (y + 1)
  = (Time.days_before_year y + (if Time.is_leap y then 366 else 365))%Z.
Proof.
  unfold Time.days_before_year, Time.is_leap.
  replace (y + 1 - 1)%Z with y by lia.
  destruct (Z.eqb_spec (y mod 4) 0), (Z.eqb_spec (y mod 100) 0),
    (Z.eqb_spec (y mod 400) 0); simpl; Z.div_mod_to_equations; lia.
Qed.

Lemma days_before_year_mono (y1 y2 : Z) :
  (y1 <= y2)%Z -> (Time.days_before_year y1 <= Time.days_before_year y2)%Z.
Proof.
  unfold Time.days_before_year. intros H. Z.div_mod_to_equations. lia.
Qed.

Lemma month_cases (m : Z) :
  (1 <= m <= 12)%Z ->
  (m = 1 \/ m = 2 \/ m = 3 \/ m = 4 \/ m = 5 \/ m = 6
   \/ m = 7 \/ m = 8 \/ m = 9 \/ m = 10 \/ m = 11 \/ m = 12)%Z.
Proof. lia. Qed.

Ltac calendar :=
  cbv [Time.days_before_month_from Time.days_in_month Z.of_nat Pos.of_succ_nat
       Pos.succ Z.ltb Z.eqb Z.compare Pos.compare Pos.compare_cont Pos.eqb orb] in *.

(** The day of the year of a date that [datetime] accepts. *)
Lemma day_of_year_bounds (y m d : Z) :
  (1 <= m <= 12)%Z -> (1 <= d <= Time.days_in_month y m)%Z ->
  (1 <= Time.days_before_month_from y m 12 + d
   <= (if Time.is_leap y then 366 else 365))%Z.
Proof.
  intros Hm Hd.
  destruct (month_cases m Hm) as [->|[->|[->|[->|[->|[->|[->|[->|[->|[->|[->| ->]]]]]]]]]]];
    calendar; destruct (Time.is_leap y); lia.
Qed.

Lemma day_of_year_mono (y m1 d1 m2 d2 : Z) :
  (1 <= m1 <= 12)%Z -> (1 <= d1 <= Time.days_in_month y m1)%Z ->
  (1 <= m2 <= 12)%Z -> (1 <= d2 <= Time.days_in_month y m2)%Z ->
  (m1 < m2)%Z ->
  (Time.days_before_month_from y m1 12 + d1
   < Time.days_before_month_from y m2 12 + d2)%Z.
Proof.
  intros Hm1 Hd1 Hm2 Hd2 Hlt.
  destruct (month_cases m1 Hm1) as [->|[->|[->|[->|[->|[->|[->|[->|[->|[->|[->| ->]]]]]]]]]]];
    destruct (month_cases m2 Hm2) as [->|[->|[->|[->|[->|[->|[->|[->|[->|[->|[->| ->]]]]]]]]]]];
    try lia; calendar; destruct (Time.is_leap y); lia.
Qed.

(** The fields of a datetime that the constructor accepted. *)
Lemma make_datetime_ok (t : Z * Z * Z * Z * Z * Z) (dt : Time.datetime) :
  Time.make_datetime t = Ok dt ->
  t = (Time.year dt, Time.month dt, Time.day dt,
       Time.hour dt, Time.minute dt, Time.second dt)
  /\ (1 <= Time.month dt <= 12
      /\ 1 <= Time.day dt <= Time.days_in_month (Time.year dt) (Time.month dt)
      /\ 0 <= Time.hour dt <= 23 /\ 0 <= Time.minute dt <= 59
      /\ 0 <= Time.second dt <= 59)%Z.
Proof.
  destruct t as [[[[[y mo] d] h] mi] s]. unfold Time.make_datetime.
  destruct (_ && _) eqn:Hc; [|discriminate].
  intros H; inversion H; subst dt; simpl.
  repeat (apply andb_true_iff in Hc; destruct Hc as [Hc ?]).
  split; [reflexivity | lia].
Qed.



(** ** C5 and C9: where the statements stop *)

(** The archive stores the file ["a"] and the file ["a/b/c.txt"]: the
    directory [a/b] is implied by the deeper file and stored in no
    form.  The file [a] stands where the directory [a] is needed, so
    the index does not build and the backend has no [/a/b]; with the
    record ["a/b/"] stored first the index builds and [/a/b] is a
    directory that lists [c.txt]. *)
Lemma C5_counterexample :
  let implied := ReadZipFS.__init__ "implied.zip" "utf-8"
                   [Examples.record "a" []; Examples.record "a/b/c.txt" Examples.hi] in
  let explicit := ReadZipFS.__init__ "explicit.zip" "utf-8"
                    [Examples.record "a/b/" []; Examples.record "a" [];
                     Examples.record "a/b/c.txt" Examples.hi] in
  fst (ReadZipFS.getinfo "/a/b" [] implied) = Raise (DirectoryExpected "a/b")
  /\ fst (ReadZipFS.getinfo "/a/b" [] (snd (ReadZipFS.getinfo "/a/b" [] implied)))
     = Raise (ResourceNotFound "/a/b")
  /\ fst (ReadZipFS.listdir "/a/b" (snd (ReadZipFS.getinfo "/a/b" [] implied)))
     = Raise (ResourceNotFound "/a/b")
  /\ fst (ReadZipFS.getinfo "/a/b" [] explicit)
     = Ok {| basic := ("b"%string, true); details := None; zip := None; access := None |}
  /\ fst (ReadZipFS.listdir "/a/b" explicit) = Ok ["c.txt"%string].
Proof. repeat split. Qed.

(** A record written on a POSIX system, with permission bits, whose date
    has the month 0: with [access] and [details] asked for together
    [getinfo] raises the [ValueError] of [datetime] and no access
    namespace comes back; with [access] alone the permissions are
    there. *)
Lemma C9_counterexample :
  let undated :=
    ReadZipFS.__init__ "undated.zip" "utf-8"
      [{| ZipFile.filename := "a"; ZipFile.file_size := 0;
          ZipFile.date_time := (1980, 0, 0, 0, 0, 0)%Z;
          ZipFile.external_attr := 2175008768; ZipFile.create_system := 3;
          ZipFile.contents := [] |}] in
  (exists d zip_info,
     fst (ReadZipFS._directory undated) = Ok d
     /\ MemoryFS.getinfo d "/a" = Ok ("a"%string, false)
     /\ ZipFile.lookup "a" (ZipFile.filelist (ReadZipFS._zip undated)) = Some zip_info
     /\ ZipFile.create_system zip_info = 3%Z
     /\ ZipFile.external_attr zip_info <> 0%Z)
  /\ fst (ReadZipFS.getinfo "/a" ["access"; "details"]%string undated)
     = Raise (ValueError "datetime field out of range")
  /\ fst (ReadZipFS.getinfo "/a" ["access"]%string undated)
     = Ok {| basic := ("a"%string, false); details := None; zip := None;
             access := Some (mkPermissions 420) |}.
Proof.
  split; [|split; reflexivity].
  eexists. eexists. repeat split. discriminate.
Qed.

(** ** Archives in the archive format *)

Lemma lookup_some (name : string) (l : list ZipFile.ZipInfo) (zip_info : ZipFile.ZipInfo) :
  ZipFile.lookup name l = Some zip_info ->
  In zip_info l /\ ZipFile.filename zip_info = name.
Proof.
  induction l as [|zi l IH]; simpl; [discriminate|].
  destruct (ZipFile.lookup name l) as [zj|].
  - intros H; inversion H; subst zj. destruct (IH eq_refl). auto.
  - destruct (String.eqb (ZipFile.filename zi) name) eqn:Heq; [|discriminate].
    intros H; inversion H; subst zi. apply String.eqb_eq in Heq. auto.
Qed.

(** The archive has a record under every name of its table. *)
Lemma lookup_in (name : string) (l : list ZipFile.ZipInfo) :
  In name (map ZipFile.filename l) ->
  exists zip_info, ZipFile.lookup name l = Some zip_info.
Proof.
  induction l as [|zi l IH]; simpl; [intros []|].
  intros [Hname|Hin].
  - destruct (ZipFile.lookup name l); [eauto|].
    rewrite Hname, String.eqb_refl. eauto.
  - destruct (IH Hin) as [zj ->]. eauto.
Qed.

Lemma endswith_join_slash (p : list string) :
  Path.endswith_slash (Path.join p ++ "/")%string = true.
Proof.
  rewrite endswith_app by discriminate. reflexivity.
Qed.

Lemma parts_join (p : list string) :
  p <> [] -> Forall kept p -> Path.resolve (Path.split (Path.join p)) [] = Some p.
Proof.
  intros Hne Hk. rewrite split_join; [apply (resolve_kept _ []); exact Hk | exact Hne |].
  eapply Forall_impl; [|exact Hk]. intros a Ha; apply Ha.
Qed.

(** The canonical form of a path, and the archive name made of it. *)
Lemma normpath_relpath_join (path : string) (p : list string) :
  Path.parts path = Ok p ->
  exists np, Path.normpath path = Ok np /\ Path.relpath np = Path.join p.
Proof.
  intros Hp.
  assert (Hk : Forall kept p).
  { apply parts_resolve in Hp.
    eapply resolve_yields_kept; [| constructor | exact Hp].
    intros c; apply split_slash_free. }
  exists ((if Path.startswith_slash path then "/" else "") ++ Path.join p)%string.
  split; [unfold Path.normpath; rewrite Hp; reflexivity|].
  destruct (Path.startswith_slash path); simpl; apply relpath_id, join_starts, Hk.
Qed.

(** X23: in an archive whose names are all in the archive format
    (canonical, relative to the root, a trailing separator for
    directories) and whose index builds, every file of the index can be
    opened: [openbin] with a reading mode returns a stream, positioned
    at offset 0, over the contents of a record of the archive, and that
    record's name is the canonical path without its leading
    separator. *)
Theorem openbin_archive_format (file encoding : string)
    (table : list ZipFile.ZipInfo) (d : MemoryFS.t) (self' : ReadZipFS.t)
    (path mode : string) :
  (forall zip_name, In zip_name (map ZipFile.filename table) ->
                    ArchiveFormat.archive_name zip_name) ->
  contains "w" mode || contains "+" mode || contains "a" mode = false ->
  ReadZipFS._directory (ReadZipFS.__init__ file encoding table) = (Ok d, self') ->
  MemoryFS.isfile d path = Ok true ->
  exists zip_info p,
    In zip_info table
    /\ Path.parts path = Ok p
    /\ ZipFile.filename zip_info = Path.join p
    /\ ReadZipFS.openbin path mode (ReadZipFS.__init__ file encoding table)
       = (Ok {| ZipFile.stream_data := ZipFile.contents zip_info;
                ZipFile.stream_offset := 0 |}, self').
Proof.
  intros Hformat Hmode Hd Hfile.
  destruct (isfile_exists_isdir _ _ Hfile) as [Hex Hdir].
  destruct (directory_cached (ReadZipFS.__init__ file encoding table) _ _ eq_refl Hd)
    as (Hopen' & Hzip & Hd').
  unfold MemoryFS.isfile in Hfile.
  destruct (Path.parts path) as [p|e] eqn:Hp; [|discriminate].
  destruct (MemoryFS.entry d p) as [[|]|] eqn:He; try discriminate.
  destruct (normpath_relpath_join _ _ Hp) as (np & Hn & Hrel).
  (* the file of the index is the path of a name of the archive *)
  pose proof (directory_fresh _ _ _ _ _ Hd) as Hbuild.
  rewrite (built_entry _ _ p Hbuild) in He.
  destruct p as [|c p]; [discriminate|]. unfold Index.node in He.
  destruct (existsb _ (flat_map Index.dirs_of _)); [discriminate|].
  destruct (existsb _ (flat_map Index.files_of _)) eqn:Hfiles; [|discriminate].
  apply existsb_exists in Hfiles as (y & Hy & Heq).
  apply path_eqb_eq in Heq; subst y.
  apply in_flat_map in Hy as (zip_name & Hin & Hy).
  unfold Index.files_of in Hy.
  destruct (Path.endswith_slash zip_name) eqn:Hslash; [destruct Hy|].
  destruct (Path.resolve (Path.split zip_name) []) as [q|] eqn:Hq; [|destruct Hy].
  destruct Hy as [->|[]].
  (* and that name is the path itself, joined *)
  destruct (Hformat zip_name Hin) as (p' & Hne & Hk & [Hname|Hname]);
    [|rewrite Hname, endswith_join_slash in Hslash; discriminate].
  assert (Hpp : p' = c :: p).
  { rewrite Hname, (parts_join _ Hne Hk) in Hq. congruence. }
  subst p'.
  destruct (lookup_in _ _ Hin) as [zip_info Hz].
  destruct (lookup_some _ _ _ Hz) as [Hzin Hzname].
  exists zip_info, (c :: p).
  split; [exact Hzin|]. split; [reflexivity|].
  split; [rewrite Hzname; exact Hname|].
  unfold ReadZipFS.openbin, bind, lift, raise.
  rewrite (check_open (ReadZipFS.__init__ file encoding table) eq_refl), Hmode, Hd, Hex.
  simpl.
  rewrite Hd', Hdir.
  rewrite (path_to_zip_name_cached _ _ _ _ _ Hd' Hn
             (isdir_relpath_normpath _ _ _ _ Hn Hdir)).
  unfold ZipFile.open, ZipFile.getinfo.
  rewrite Hzip, Hrel, <- Hname. simpl. rewrite Hz. reflexivity.
Qed.

Lemma openbin_archive_format_witness :
  exists zip_info p,
    In zip_info [Examples.record "x/" []; Examples.record "x/y.txt" Examples.hi]
    /\ Path.parts "/x/y.txt" = Ok p
    /\ ZipFile.filename zip_info = Path.join p
    /\ ReadZipFS.openbin "/x/y.txt" "rb" Examples.explicit
       = (Ok {| ZipFile.stream_data := ZipFile.contents zip_info;
                ZipFile.stream_offset := 0 |},
          snd (ReadZipFS._directory Examples.explicit)).
Proof.
  apply (openbin_archive_format "explicit.zip" "utf-8"
           [Examples.record "x/" []; Examples.record "x/y.txt" Examples.hi]
           [(["x"], true); (["x"; "y.txt"], false)]%string
           (snd (ReadZipFS._directory Examples.explicit)) "/x/y.txt" "rb").
  - intros zip_name [<-|[<-|[]]].
    + exists ["x"]%string. split; [discriminate|]. split; [|right; reflexivity].
      repeat constructor; discriminate.
    + exists ["x"; "y.txt"]%string. split; [discriminate|]. split; [|left; reflexivity].
      repeat constructor; discriminate.
  - reflexivity.
  - reflexivity.
  - reflexivity.
Defined.
